(** * type-bridge: schema extraction, normalization, safe writing, watching

    A shallow embedding of the JavaScript sources
      - src/core/normalizer.js        (normalizeField, normalizeModel, validateSchema)
      - the Mongoose parser           (extractFieldType, parseSchemaFields, parseMongooseModel)
      - src/writers/file-writer.js    (writeFileSafe, writeMultipleFiles)
      - the file watcher              (debounce, watchFiles)
    followed by the properties established about them. *)

From Stdlib Require Import ZArith String Ascii Bool Lia.
From stdpp Require Import base option list gmap strings pretty.

Local Open Scope string_scope.
Local Open Scope list_scope.
Set Warnings "-register-all".

(** ** JavaScript values *)

Module JS.

(** The dynamically typed data the program inspects.  Numbers are only ever
    tested for truthiness by this code base, so integer-valued numbers are
    enough ([NaN], also falsy, and fractions are left out).  A function is
    identified by its [name] property (the parser reads nothing else of it).
    An object is the ordered list of its own enumerable properties, in the
    order [Object.entries] yields them. *)
Inductive value : Type :=
| VUndefined
| VNull
| VBool (b : bool)
| VNum (n : Z)
| VStr (s : string)
| VFun (name : string)
| VArr (elems : list value)
| VObj (props : list (string * value)).

Abbreviation object := (list (string * value)).

(** [ToBoolean]. *)
Definition truthy (v : value) : bool :=
  match v with
  | VUndefined | VNull => false
  | VBool b => b
  | VNum n => negb (n =? 0)%Z
  | VStr s => negb (s =? "")
  | VFun _ | VArr _ | VObj _ => true
  end.

(** [a || b] and [a && b] on values. *)
Definition or_ (a b : value) : value := if truthy a then a else b.
Definition and_ (a b : value) : value := if truthy a then b else a.

(** [typeof v === 'object'] *)
Definition typeof_object (v : value) : bool :=
  match v with
  | VNull | VArr _ | VObj _ => true
  | _ => false
  end.

(** [Array.isArray v] *)
Definition isArray (v : value) : bool :=
  match v with VArr _ => true | _ => false end.

(** [v === true] and [v !== false] *)
Definition is_true (v : value) : bool :=
  match v with VBool true => true | _ => false end.
Definition is_not_false (v : value) : bool :=
  match v with VBool false => false | _ => true end.

(** [o[k]] on an object: the first entry with that key, else [undefined]. *)
Fixpoint get (k : string) (o : object) : value :=
  match o with
  | [] => VUndefined
  | (k', v) :: o' => if k =? k' then v else get k o'
  end.

(** [k in o] *)
Fixpoint has (k : string) (o : object) : bool :=
  match o with
  | [] => false
  | (k', _) :: o' => (k =? k') || has k o'
  end.

(** Writing key [k] in an object literal after a spread: an existing key
    keeps its position and takes the new value, a new key goes last. *)
Fixpoint assign (k : string) (v : value) (o : object) : object :=
  match o with
  | [] => [(k, v)]
  | (k', v') :: o' =>
      if k =? k' then (k, v) :: o' else (k', v') :: assign k v o'
  end.

(** The members a plain object inherits from [Object.prototype]: eleven
    functions, each with its [name], and the accessor [__proto__], which
    gives [Object.prototype] itself (an object without enumerable
    properties). *)
Definition Object_prototype : object :=
  [ ("constructor", VFun "Object");
    ("__defineGetter__", VFun "__defineGetter__");
    ("__defineSetter__", VFun "__defineSetter__");
    ("hasOwnProperty", VFun "hasOwnProperty");
    ("__lookupGetter__", VFun "__lookupGetter__");
    ("__lookupSetter__", VFun "__lookupSetter__");
    ("isPrototypeOf", VFun "isPrototypeOf");
    ("propertyIsEnumerable", VFun "propertyIsEnumerable");
    ("toString", VFun "toString");
    ("valueOf", VFun "valueOf");
    ("__proto__", VObj []);
    ("toLocaleString", VFun "toLocaleString") ].

(** [o[k]] on an object literal [o] for a computed key [k]: an own
    property if there is one, else what [Object.prototype] has under [k]. *)
Definition get_inherited (k : string) (o : object) : value :=
  get k (o ++ Object_prototype).

(** [v.k] for a [v] that is neither [null] nor [undefined].  The keys this
    program reads (those of a field definition, of a field, of a model and
    [isRequired]) are no built-in property of arrays, strings, numbers or
    booleans; of these a function has only its [name]. *)
Definition getp (v : value) (k : string) : value :=
  match v with
  | VObj o => get k o
  | VFun n => if k =? "name" then VStr n else VUndefined
  | _ => VUndefined
  end.

(** [k in v] under a [typeof v === 'object'] guard, for the key [default]. *)
Definition hasp (k : string) (v : value) : bool :=
  match v with
  | VObj o => has k o
  | _ => false
  end.

(** [s.startsWith('_')] *)
Definition startsWith_underscore (s : string) : bool :=
  match s with
  | String c _ => Ascii.eqb c "_"%char
  | EmptyString => false
  end.

(** Applying [f] to [o[k]] while walking [o], so that a recursive function
    on values may descend into the property; [d] is the answer for an
    absent key.  [on_prop_get] below relates it to [get]. *)
Section OnProp.
Context {A : Type} (f : value -> A).

Fixpoint on_prop (d : A) (k : string) (o : object) : A :=
  match o with
  | [] => d
  | (k', v) :: o' => if k =? k' then f v else on_prop d k o'
  end.
End OnProp.

(** [for (const [k, v] of Object.entries(o))] with a body that either
    pushes one element or [continue]s. *)
Section ForEntries.
Context {A : Type} (body : string -> value -> option A).

Fixpoint for_entries (o : object) : list A :=
  match o with
  | [] => []
  | (k, v) :: o' =>
      match body k v with
      | Some a => a :: for_entries o'
      | None => for_entries o'
      end
  end.
End ForEntries.

(** What a call does: it returns, it throws, or it hands control to a
    function supplied inside the data, whose body the model does not have. *)
Inductive outcome (A : Type) : Type :=
| Returns (a : A)
| Throws (err : string)
| Foreign.
Arguments Returns {A} a.
Arguments Throws {A} err.
Arguments Foreign {A}.

#[global] Instance outcome_fmap : FMap outcome := fun _ _ f m =>
  match m with
  | Returns a => Returns (f a)
  | Throws e => Throws e
  | Foreign => Foreign
  end.
#[global] Instance outcome_ret : MRet outcome := fun _ a => Returns a.
#[global] Instance outcome_bind : MBind outcome := fun _ _ k m =>
  match m with
  | Returns a => k a
  | Throws e => Throws e
  | Foreign => Foreign
  end.

Definition nullish (v : value) : bool :=
  match v with VUndefined | VNull => true | _ => false end.

End JS.
Import JS.

(** ** src/core/normalizer.js *)

Module Normalizer.

Module STANDARD_TYPES.
Definition STRING := "string".
Definition NUMBER := "number".
Definition BOOLEAN := "boolean".
Definition DATE := "Date".
Definition ARRAY := "array".
Definition OBJECT := "object".
Definition ANY := "any".
Definition NULL := "null".
Definition UNDEFINED := "undefined".
End STANDARD_TYPES.

(** [normalizeField(field)]: reading a property of [null] or [undefined]
    throws; any other argument yields the thirteen-key object. *)
Definition normalizeField (field : value) : outcome value :=
  if nullish field then Throws "TypeError"
  else Returns (VObj
    [ ("name", getp field "name");
      ("type", or_ (getp field "type") (VStr STANDARD_TYPES.ANY));
      ("required", VBool (is_not_false (getp field "required")));
      ("isPrimary", or_ (getp field "isPrimary") (VBool false));
      ("isArray", or_ (getp field "isArray") (VBool false));
      ("arrayOf", or_ (getp field "arrayOf") VNull);
      ("isEnum", or_ (getp field "isEnum") (VBool false));
      ("enumValues", or_ (getp field "enumValues") VNull);
      ("isReference", or_ (getp field "isReference") (VBool false));
      ("referenceTo", or_ (getp field "referenceTo") VNull);
      ("defaultValue", or_ (getp field "defaultValue") VNull);
      ("description", or_ (getp field "description") VNull);
      ("nested", or_ (getp field "nested") VNull) ]).

(** [normalizeModel(model)].  [(model.fields || []).map(normalizeField)]:
    an array is mapped; a truthy non-array has no callable [map] among the
    values of the model unless it is an object carrying its own. *)
Definition normalizeModel (model : value) : outcome value :=
  if nullish model then Throws "TypeError"
  else
    fields ←
      match or_ (getp model "fields") (VArr []) with
      | VArr l => VArr <$> mapM normalizeField l
      | VObj o =>
          match get "map" o with
          | VFun _ => Foreign
          | _ => Throws "TypeError"
          end
      | _ => Throws "TypeError"
      end;
    mret (VObj
      [ ("modelName", getp model "modelName");
        ("tableName", or_ (getp model "tableName") (getp model "modelName"));
        ("fields", fields);
        ("description", or_ (getp model "description") VNull);
        ("source", or_ (getp model "source") (VStr "unknown"));
        ("filePath", or_ (getp model "filePath") VNull) ]).

(** The messages [validateSchema] pushes, by kind:
    'Model must have a name', 'Model must have fields array',
    'Field at index i must have a name', 'Field "name" must have a type'
    (the last carries the field's [name] value as it is interpolated). *)
Inductive validation_error : Type :=
| ModelMustHaveName
| ModelMustHaveFieldsArray
| FieldMustHaveName (index : nat)
| FieldMustHaveType (name : value).

Record validation_result : Type := mkValidation {
  valid : bool;
  errors : list validation_error
}.

(** The [forEach] callback of [validateSchema]: the errors one field adds,
    or a throw when the element is [null] or [undefined]. *)
Definition check_field (index : nat) (field : value)
  : outcome (list validation_error) :=
  if nullish field then Throws "TypeError"
  else Returns
    ((if truthy (getp field "name") then [] else [FieldMustHaveName index]) ++
     (if truthy (getp field "type") then []
      else [FieldMustHaveType (getp field "name")])).

Fixpoint check_fields (index : nat) (fields : list value)
  : outcome (list validation_error) :=
  match fields with
  | [] => Returns []
  | f :: fs =>
      e1 ← check_field index f;
      e2 ← check_fields (S index) fs;
      mret (e1 ++ e2)
  end.

(** [validateSchema(schema)].  [schema.fields?.forEach(...)] skips only a
    [null] or [undefined] [fields]; on any other value the member [forEach]
    is looked up and called: arrays have it, an object may carry its own
    (a function: control leaves the model), everything else has none and
    the call throws. *)
Definition validateSchema (schema : value) : outcome validation_result :=
  if nullish schema then Throws "TypeError"
  else
    let e1 := if truthy (getp schema "modelName") then []
              else [ModelMustHaveName] in
    let fields := getp schema "fields" in
    let e2 := if isArray fields then [] else [ModelMustHaveFieldsArray] in
    e3 ←
      match fields with
      | VUndefined | VNull => mret []
      | VArr l => check_fields 0 l
      | VObj o =>
          match get "forEach" o with
          | VFun _ => Foreign
          | _ => Throws "TypeError"
          end
      | _ => Throws "TypeError"
      end;
    let errors := e1 ++ e2 ++ e3 in
    mret {| valid := (length errors =? 0)%nat; errors := errors |}.

End Normalizer.
Import Normalizer.

(** ** The Mongoose schema parser *)

Module MongooseParser.

(** Map Mongoose types to standard types: the own properties of the
    object literal.  [extractFieldType] indexes it with a computed key, so
    it reads it through [get_inherited]. *)
Definition MONGOOSE_TYPE_MAP : object :=
  [ ("String", VStr STANDARD_TYPES.STRING);
    ("Number", VStr STANDARD_TYPES.NUMBER);
    ("Boolean", VStr STANDARD_TYPES.BOOLEAN);
    ("Date", VStr STANDARD_TYPES.DATE);
    ("Buffer", VStr STANDARD_TYPES.STRING);
    ("ObjectId", VStr STANDARD_TYPES.STRING);
    ("Mixed", VStr "Record<string, any>");
    ("Decimal128", VStr STANDARD_TYPES.NUMBER);
    ("Map", VStr STANDARD_TYPES.OBJECT);
    ("Schema.Types.String", VStr STANDARD_TYPES.STRING);
    ("Schema.Types.Number", VStr STANDARD_TYPES.NUMBER);
    ("Schema.Types.Boolean", VStr STANDARD_TYPES.BOOLEAN);
    ("Schema.Types.Date", VStr STANDARD_TYPES.DATE);
    ("Schema.Types.ObjectId", VStr STANDARD_TYPES.STRING);
    ("Schema.Types.Mixed", VStr "Record<string, any>");
    ("Schema.Types.Decimal128", VStr STANDARD_TYPES.NUMBER);
    ("Schema.Types.Map", VStr STANDARD_TYPES.OBJECT) ].

(** The last [return] of [extractFieldType]. *)
Definition fallthrough : object :=
  [ ("type", VStr STANDARD_TYPES.ANY); ("isReference", VBool false) ].

(** [extractFieldType(fieldDef)].  The tests of the source, in its order:
    array; truthy object with a truthy [type]; truthy object with a truthy
    [enum]; function; string; anything else.  The recursive call on
    [fieldDef.type] goes through [on_prop] (see [extractFieldType_object]
    for the equation with [get]). *)
Fixpoint extractFieldType (fieldDef : value) : object :=
  match fieldDef with
  | VArr [] =>
      [ ("type", VStr STANDARD_TYPES.ARRAY);
        ("isArray", VBool true);
        ("arrayOf", VStr STANDARD_TYPES.ANY) ]
  | VArr (first :: _) =>
      let innerType := extractFieldType first in
      [ ("type", VStr STANDARD_TYPES.ARRAY);
        ("isArray", VBool true);
        ("arrayOf", get "type" innerType);
        ("isReference", get "isReference" innerType);
        ("referenceTo", get "referenceTo" innerType) ]
  | VObj props =>
      if truthy (get "type" props) then
        let typeInfo := on_prop extractFieldType fallthrough "type" props in
        if truthy (get "enum" props) then
          assign "enumValues" (get "enum" props)
            (assign "isEnum" (VBool true) typeInfo)
        else if truthy (get "ref" props) then
          assign "referenceTo" (get "ref" props)
            (assign "isReference" (VBool true) typeInfo)
        else typeInfo
      else if truthy (get "enum" props) then
        [ ("type", VStr STANDARD_TYPES.STRING);
          ("isEnum", VBool true);
          ("enumValues", get "enum" props) ]
      else fallthrough
  | VFun typeName =>
      [ ("type", or_ (get_inherited typeName MONGOOSE_TYPE_MAP)
                     (VStr STANDARD_TYPES.ANY));
        ("isReference", VBool false) ]
  | VStr name =>
      [ ("type", or_ (get_inherited name MONGOOSE_TYPE_MAP)
                     (VStr STANDARD_TYPES.ANY));
        ("isReference", VBool false) ]
  | VUndefined | VNull | VBool _ | VNum _ => fallthrough
  end.

(** [fieldDef && typeof fieldDef === 'object'] *)
Definition is_object_like (fieldDef : value) : bool :=
  truthy fieldDef && typeof_object fieldDef.

(** The body of the loop of [parseSchemaFields] for one entry that is not
    skipped, given [pathInfo = schemaPaths[fieldName]].  The recursive call
    [parseSchemaFields(fieldDef)] runs the same loop over the entries of
    [fieldDef] with the default [schemaPaths = {}], whose lookups are
    [undefined]. *)
Fixpoint parseField (pathInfo : value) (fieldName : string) (fieldDef : value)
  {struct fieldDef} : object :=
  let typeInfo := extractFieldType fieldDef in
  let required :=
    if is_object_like fieldDef then is_true (getp fieldDef "required")
    else false in
  let required :=
    if truthy (and_ pathInfo (getp pathInfo "isRequired")) then true
    else required in
  let defaultValue :=
    if is_object_like fieldDef && hasp "default" fieldDef
    then getp fieldDef "default" else VNull in
  let isUnique :=
    if negb (truthy fieldDef) then fieldDef
    else if negb (typeof_object fieldDef) then VBool false
    else VBool (is_true (getp fieldDef "unique")) in
  let nested :=
    match fieldDef with
    | VObj props =>
        if negb (truthy (get "type" props)) && negb (truthy (get "enum" props))
        then VArr (map VObj
               (for_entries
                  (fun k v => if startsWith_underscore k then None
                              else Some (parseField VUndefined k v))
                  props))
        else VNull
    | _ => VNull
    end in
  let isEnumArray := and_ (get "isArray" typeInfo) (get "isEnum" typeInfo) in
  [ ("name", VStr fieldName);
    ("type", if truthy nested then VStr STANDARD_TYPES.OBJECT
             else get "type" typeInfo);
    ("required", VBool required);
    ("isArray", or_ (get "isArray" typeInfo) (VBool false));
    ("arrayOf", or_ (get "arrayOf" typeInfo) VNull);
    ("isReference", or_ (get "isReference" typeInfo) (VBool false));
    ("referenceTo", or_ (get "referenceTo" typeInfo) VNull);
    ("isEnum", or_ (get "isEnum" typeInfo) (VBool false));
    ("isEnumArray", isEnumArray);
    ("enumValues", or_ (get "enumValues" typeInfo) VNull);
    ("defaultValue", defaultValue);
    ("isUnique", isUnique);
    ("nested", nested) ].

(** [parseSchemaFields(schemaObj, schemaPaths = {})] on the entries of a
    schema object. *)
Definition parseSchemaFields (schemaObj schemaPaths : object) : list object :=
  for_entries
    (fun fieldName fieldDef =>
       if startsWith_underscore fieldName then None
       else Some (parseField (get fieldName schemaPaths) fieldName fieldDef))
    schemaObj.

(** One element of what [extractSchemaFromFile] hands over for a Mongoose
    model or schema: a model name, which is a string, and the schema's
    [obj] and [paths], which are objects.  [extractSchemaFromFile] tests
    them for truthiness only; [Raw] below has the parser on an element of
    any shape. *)
Record extracted : Type := mkExtracted {
  ex_modelName : string;
  ex_obj : object;
  ex_paths : object
}.

(** The callback [parseMongooseModel] maps over the extracted schemas. *)
Definition parseExtracted (filePath : string) (e : extracted) : outcome value :=
  let fields := parseSchemaFields (ex_obj e) (ex_paths e) in
  normalizeModel (VObj
    [ ("modelName", VStr (ex_modelName e));
      ("fields", VArr (map VObj fields));
      ("source", VStr "mongoose");
      ("filePath", VStr filePath) ]).

(** [parseMongooseModel(filePath)], with the result of
    [extractSchemaFromFile(filePath)] (module loading, outside this model)
    given: [None] for [null]. *)
Definition parseMongooseModel (filePath : string)
  (extractedSchemas : option (list extracted)) : outcome (option (list value)) :=
  match extractedSchemas with
  | None | Some [] => Returns None
  | Some es =>
      ms ← mapM (parseExtracted filePath) es; mret (Some ms)
  end.

End MongooseParser.
Import MongooseParser.

(** ** src/writers/file-writer.js *)

Module FileWriter.

(** The files on disk: path to content.  Directories and permissions show
    only through the calls that may be refused. *)
Abbreviation FS := (gmap string string).

(** The [fs] calls [writeFileSafe] makes, one name per call site. *)
Inductive fs_call : Type :=
| CallEnsureDir        (* fs.ensureDir, in ensureDirectory *)
| CallAccess           (* fs.access, in checkWritePermission *)
| CallCopyToBackup     (* fs.copy, in createBackup *)
| CallWriteTemp        (* fs.writeFile *)
| CallRename           (* fs.rename *)
| CallRemoveBackup     (* fs.remove, in removeBackup *)
| CallCopyFromBackup   (* fs.copy, in restoreBackup *)
| CallRemoveRestored.  (* fs.remove, in restoreBackup *)

(** Which calls the environment refuses during one [writeFileSafe]. *)
Definition faults : Type := fs_call -> bool.
Definition no_faults : faults := fun _ => false.

(** An awaited promise: resolved with a value or rejected with an error. *)
Inductive settled (A : Type) : Type :=
| Resolved (a : A)
| Rejected (error : string).
Arguments Resolved {A} a.
Arguments Rejected {A} error.

(** An [async] function over the file system under a fault plan. *)
Definition io (A : Type) : Type := faults -> FS -> settled A * FS.

#[global] Instance io_ret : MRet io := fun _ a _ fs => (Resolved a, fs).
#[global] Instance io_bind : MBind io := fun _ _ k m ft fs =>
  match m ft fs with
  | (Resolved a, fs') => k a ft fs'
  | (Rejected e, fs') => (Rejected e, fs')
  end.

Definition throw {A : Type} (e : string) : io A := fun _ fs => (Rejected e, fs).

(** [try { body } catch (error) { handler error }] *)
Definition try_catch {A : Type} (body : io A) (handler : string -> io A) : io A :=
  fun ft fs =>
    match body ft fs with
    | (Resolved a, fs') => (Resolved a, fs')
    | (Rejected e, fs') => handler e ft fs'
    end.

(** The [fs-extra] primitives.  A refused call rejects and leaves the
    files as they were. *)
Definition fs_ensureDir : io unit :=
  fun ft fs => if ft CallEnsureDir then (Rejected "EACCES", fs) else (Resolved tt, fs).

Definition fs_access : io unit :=
  fun ft fs => if ft CallAccess then (Rejected "EACCES", fs) else (Resolved tt, fs).

Definition fs_pathExists (p : string) : io bool :=
  fun _ fs => (Resolved (bool_decide (is_Some (fs !! p))), fs).

Definition fs_copy (site : fs_call) (src dst : string) : io unit :=
  fun ft fs =>
    if ft site then (Rejected "EIO", fs)
    else match fs !! src with
         | Some c => (Resolved tt, <[dst := c]> fs)
         | None => (Rejected "ENOENT", fs)
         end.

Definition fs_writeFile (p content : string) : io unit :=
  fun ft fs =>
    if ft CallWriteTemp then (Rejected "EIO", fs)
    else (Resolved tt, <[p := content]> fs).

Definition fs_rename (src dst : string) : io unit :=
  fun ft fs =>
    if ft CallRename then (Rejected "EIO", fs)
    else match fs !! src with
         | Some c => (Resolved tt, <[dst := c]> (delete src fs))
         | None => (Rejected "ENOENT", fs)
         end.

Definition fs_remove (site : fs_call) (p : string) : io unit :=
  fun ft fs =>
    if ft site then (Rejected "EIO", fs) else (Resolved tt, delete p fs).

Definition ensureDirectory : io unit := fs_ensureDir.

Definition createBackup (filePath : string) : io (option string) :=
  present ← fs_pathExists filePath;
  if negb present then mret None
  else
    let backupPath := filePath +:+ ".backup" in
    fs_copy CallCopyToBackup filePath backupPath;;
    mret (Some backupPath).

Definition restoreBackup (backupPath originalPath : string) : io unit :=
  present ← fs_pathExists backupPath;
  if (present : bool) then
    fs_copy CallCopyFromBackup backupPath originalPath;;
    fs_remove CallRemoveRestored backupPath
  else mret tt.

Definition removeBackup (backupPath : string) : io unit :=
  present ← fs_pathExists backupPath;
  if (present : bool) then fs_remove CallRemoveBackup backupPath else mret tt.

Definition checkWritePermission : io bool :=
  try_catch (fs_access;; mret true) (fun _ => mret false).

(** The object [writeFileSafe] resolves with: [{success: true, filePath,
    backupCreated}] or [{success: false, error, filePath}]. *)
Record write_result : Type := mkWriteResult {
  success : bool;
  filePath : string;
  backupCreated : option bool;
  error : option string
}.

(** The part of the [try] block that runs while [backupPath] is still
    [null], ending with the assignment to it. *)
Definition prepare (path : string) (shouldBackup : bool) : io (option string) :=
  ensureDirectory;;
  canWrite ← checkWritePermission;
  if negb canWrite then throw ("No write permission for " +:+ path)
  else if shouldBackup then createBackup path else mret None.

(** The rest of the [try] block, with [backupPath] assigned. *)
Definition commit (path content : string) (backupPath : option string)
  : io write_result :=
  let tempPath := path +:+ ".tmp" in
  fs_writeFile tempPath content;;
  fs_rename tempPath path;;
  match backupPath with
  | Some b => removeBackup b
  | None => mret tt
  end;;
  mret {| success := true; filePath := path;
          backupCreated := Some (bool_decide (is_Some backupPath));
          error := None |}.

(** The [catch] block, for the value [backupPath] has when it is entered. *)
Definition rollback (path : string) (backupPath : option string) (e : string)
  : io write_result :=
  match backupPath with
  | Some b => try_catch (restoreBackup b path) (fun _ => mret tt)
  | None => mret tt
  end;;
  mret {| success := false; filePath := path;
          backupCreated := None; error := Some e |}.

(** [writeFileSafe(filePath, content, {createBackup: shouldBackup})] *)
Definition writeFileSafe (path content : string) (shouldBackup : bool)
  : io write_result :=
  try_catch
    (backupPath ← prepare path shouldBackup;
     try_catch (commit path content backupPath) (rollback path backupPath))
    (rollback path None).

(** A [{path, content}] element of the argument of [writeMultipleFiles]. *)
Record file : Type := mkFile { path : string; content : string }.

(** The aggregate [writeMultipleFiles] resolves with. *)
Record batch_result : Type := mkBatch {
  b_success : bool;
  total : Z;
  successful : Z;
  failed : Z;
  results : list write_result
}.

(** The loop of [writeMultipleFiles]: the [i]-th call of [writeFileSafe]
    runs under the fault plan [schedule i]. *)
Fixpoint write_each (files : list file) (shouldBackup : bool)
  (schedule : nat -> faults) (i : nat) (fs : FS)
  : settled (list write_result) * FS :=
  match files with
  | [] => (Resolved [], fs)
  | f :: rest =>
      match writeFileSafe (path f) (content f) shouldBackup (schedule i) fs with
      | (Resolved r, fs') =>
          match write_each rest shouldBackup schedule (S i) fs' with
          | (Resolved rs, fs'') => (Resolved (r :: rs), fs'')
          | (Rejected e, fs'') => (Rejected e, fs'')
          end
      | (Rejected e, fs') => (Rejected e, fs')
      end
  end.

Definition writeMultipleFiles (files : list file) (shouldBackup : bool)
  (schedule : nat -> faults) (fs : FS) : settled batch_result * FS :=
  match write_each files shouldBackup schedule 0 fs with
  | (Resolved results, fs') =>
      let allSuccess := forallb success results in
      let successCount :=
        Z.of_nat (length (filter (fun r => success r = true) results)) in
      (Resolved {| b_success := allSuccess;
                   total := Z.of_nat (length files);
                   successful := successCount;
                   failed := (Z.of_nat (length files) - successCount)%Z;
                   results := results |}, fs')
  | (Rejected e, fs') => (Rejected e, fs')
  end.

End FileWriter.
Import FileWriter.

(** ** The file watcher *)

Module FileWatcher.

(** [debounceDelay = options.debounceDelay], which defaults to
    [config.watchDebounce || 300]; [None] stands for [undefined]. *)
Definition debounceDelay (options_debounceDelay config_watchDebounce : option nat)
  : nat :=
  match options_debounceDelay with
  | Some d => d
  | None =>
      match config_watchDebounce with
      | Some (S n) => S n
      | _ => 300
      end
  end.

(** The closure state of one [watchFiles] call, at millisecond resolution:
    [timeoutId] is the pending timeout of [debounce] (its expiry time and
    the [changedPath] it will pass on), [isRegenerating] the flag of
    [watchFiles].  [inflight] counts the [generateTypes] calls awaited and
    not yet settled, and [runs] logs every [generateTypes] call with the
    time it started and the path that triggered it. *)
Record state : Type := mkState {
  timeoutId : option (nat * string);
  isRegenerating : bool;
  inflight : nat;
  runs : list (nat * string)
}.

Definition initial : state :=
  {| timeoutId := None; isRegenerating := false; inflight := 0; runs := [] |}.

(** What reaches the watcher from outside: a chokidar [change], [add] or
    [unlink] event at time [t], or the pending [generateTypes] promise
    settling (fulfilled or rejected) at time [t]. *)
Inductive event : Type :=
| Change (t : nat) (changedPath : string)
| Settle (t : nat).

(** The function returned by [debounce(fn, delay)], called at time [t]:
    [clearTimeout(timeoutId); timeoutId = setTimeout(..., delay)]. *)
Definition debounced (delay t : nat) (changedPath : string) (s : state) : state :=
  {| timeoutId := Some (t + delay, changedPath);
     isRegenerating := isRegenerating s;
     inflight := inflight s;
     runs := runs s |}.

(** The async callback given to [debounce], up to its [await]:
    [if (isRegenerating) return; isRegenerating = true; generateTypes(config)]. *)
Definition regenerate_callback (now : nat) (changedPath : string) (s : state)
  : state :=
  if isRegenerating s then s
  else {| timeoutId := timeoutId s;
          isRegenerating := true;
          inflight := S (inflight s);
          runs := runs s ++ [(now, changedPath)] |}.

(** The pending timeout fires: it is no longer pending and the callback runs. *)
Definition fire (s : state) : state :=
  match timeoutId s with
  | Some (due, changedPath) =>
      regenerate_callback due changedPath
        {| timeoutId := None;
           isRegenerating := isRegenerating s;
           inflight := inflight s;
           runs := runs s |}
  | None => s
  end.

(** Time passes until [t]: a timeout due by then fires (one due exactly
    at [t] before whatever else happens at [t]). *)
Definition advance (t : nat) (s : state) : state :=
  match timeoutId s with
  | Some (due, _) => if (due <=? t)%nat then fire s else s
  | None => s
  end.

(** The awaited [generateTypes] settles: the rest of the callback runs,
    ending in [finally { isRegenerating = false }]. *)
Definition settle (s : state) : state :=
  match inflight s with
  | 0 => s
  | S n => {| timeoutId := timeoutId s;
              isRegenerating := false;
              inflight := n;
              runs := runs s |}
  end.

Definition step (delay : nat) (s : state) (e : event) : state :=
  match e with
  | Change t changedPath => debounced delay t changedPath (advance t s)
  | Settle t => settle (advance t s)
  end.

Definition exec (delay : nat) (trace : list event) (s : state) : state :=
  fold_left (step delay) trace s.

(** No further event arrives: what is pending fires. *)
Definition finish (s : state) : state := fire s.

(** A burst after a first event at time [t]: every next event comes
    before the timeout set by the previous one is due. *)
Fixpoint burst_after (delay t : nat) (rest : list (nat * string)) : Prop :=
  match rest with
  | [] => True
  | (t', _) :: rest' => t <= t' /\ t' < t + delay /\ burst_after delay t' rest'
  end.

Definition changes (burst : list (nat * string)) : list event :=
  map (fun e => Change (fst e) (snd e)) burst.

End FileWatcher.
Import FileWatcher.

(** ** Vocabulary of the statements *)

Module Terms.

(** A raw field definition without an explicit required marker: a bare
    type marker, an array wrapper, or an object without a [required] key. *)
Definition omits_required (fieldDef : value) : bool :=
  match fieldDef with
  | VObj props => negb (has "required" props)
  | _ => true
  end.

(** The five shapes [extractFieldType] recognizes: array wrapper, object
    with a [type], object with an [enum], function, string. *)
Definition recognized_shape (fieldDef : value) : bool :=
  match fieldDef with
  | VArr _ | VFun _ | VStr _ => true
  | VObj props => truthy (get "type" props) || truthy (get "enum" props)
  | _ => false
  end.

(** A field that passes both checks of [validateSchema]. *)
Definition field_ok (field : value) : Prop :=
  truthy (getp field "name") = true /\ truthy (getp field "type") = true.

(** A fault plan: after the rename has gone through, the environment
    refuses both the removal of the backup and the copy that restores it. *)
Definition cleanup_and_restore_refused : faults :=
  fun c =>
    match c with
    | CallRemoveBackup | CallCopyFromBackup => true
    | _ => false
    end.

(** The most recent event of a burst. *)
Fixpoint last_of (first : nat * string) (rest : list (nat * string))
  : nat * string :=
  match rest with
  | [] => first
  | e :: rest' => last_of e rest'
  end.

(** "A change arriving while a run is in flight is followed by a run": for
    every change event of the trace that finds [isRegenerating] set, some
    [generateTypes] call starts at or after it. *)
Definition follow_up_guaranteed (delay : nat) (trace : list event) : Prop :=
  forall pre t changedPath post,
    trace = pre ++ Change t changedPath :: post ->
    isRegenerating (advance t (exec delay pre initial)) = true ->
    exists run, In run (runs (finish (exec delay trace initial))) /\ t <= fst run.

(** "A burst triggers exactly one run, timed from its most recent event",
    for a burst reaching the watcher in state [s]. *)
Definition one_run_per_burst (delay : nat) (s : state)
  (first : nat * string) (rest : list (nat * string)) : Prop :=
  burst_after delay (fst first) rest ->
  runs (finish (exec delay (changes (first :: rest)) s)) =
    runs s ++ [(fst (last_of first rest) + delay, snd (last_of first rest))].

(** The flag and the number of awaited [generateTypes] calls agree. *)
Definition flight_ok (s : state) : Prop :=
  inflight s = if isRegenerating s then 1 else 0.

End Terms.
Import Terms.

(** ** The rest of the parser, the writer and the watcher *)

Module Raw.

(** The parser on what [extractSchemaFromFile] really hands over: a
    [schema] it has only tested for truthiness, so that [schema.obj] and
    [schema.paths] may be anything. *)

(** The index keys of an array or of the characters of a string. *)
Definition index_entries (l : list value) : object :=
  imap (fun i x => (pretty i, x)) l.

(** [Object.entries(v)]: [null] and [undefined] throw; an array gives its
    elements and a string its characters under their indices; a boolean,
    a number or a function has no enumerable property of its own. *)
Definition Object_entries (v : value) : outcome object :=
  match v with
  | VUndefined | VNull => Throws "TypeError"
  | VObj o => Returns o
  | VArr l => Returns (index_entries l)
  | VStr s =>
      Returns (index_entries
                 (map (fun c => VStr (String c "")) (list_ascii_of_string s)))
  | VBool _ | VNum _ | VFun _ => Returns []
  end.

(** [schemaPaths[fieldName]].  The loop uses the result only in
    [pathInfo && pathInfo.isRequired]: an object found under the key (an
    own property, or an array element under its index) is what matters;
    a character, a length or an inherited function has no [isRequired] and
    stands as [undefined].  Reading from [null] throws. *)
Definition member (schemaPaths : value) (fieldName : string) : outcome value :=
  match schemaPaths with
  | VUndefined | VNull => Throws "TypeError"
  | VObj o => Returns (get fieldName o)
  | VArr l => Returns (get fieldName (index_entries l))
  | VStr _ | VBool _ | VNum _ | VFun _ => Returns VUndefined
  end.

(** The loop of [parseSchemaFields] over the entries. *)
Fixpoint parse_entries (entries : object) (schemaPaths : value)
  : outcome (list object) :=
  match entries with
  | [] => mret []
  | (fieldName, fieldDef) :: rest =>
      if startsWith_underscore fieldName then parse_entries rest schemaPaths
      else
        pathInfo ← member schemaPaths fieldName;
        fields ← parse_entries rest schemaPaths;
        mret (parseField pathInfo fieldName fieldDef :: fields)
  end.

(** [parseSchemaFields(schemaObj, schemaPaths = {})] *)
Definition parseSchemaFields (schemaObj schemaPaths : value) : outcome (list object) :=
  let schemaPaths :=
    match schemaPaths with VUndefined => VObj [] | _ => schemaPaths end in
  entries ← Object_entries schemaObj;
  parse_entries entries schemaPaths.

(** An element [{modelName, schema}] of what [extractSchemaFromFile]
    returns. *)
Record extracted : Type := mkExtracted {
  modelName : value;
  schema : value
}.

(** [v.k] where [v] may be [null] or [undefined]. *)
Definition read (v : value) (k : string) : outcome value :=
  if nullish v then Throws "TypeError" else Returns (getp v k).

(** The callback [parseMongooseModel] maps over the extracted schemas. *)
Definition parseExtracted (filePath : string) (e : extracted) : outcome value :=
  obj ← read (schema e) "obj";
  paths ← read (schema e) "paths";
  fields ← parseSchemaFields obj paths;
  normalizeModel (VObj
    [ ("modelName", modelName e);
      ("fields", VArr (map VObj fields));
      ("source", VStr "mongoose");
      ("filePath", VStr filePath) ]).

(** [parseMongooseModel(filePath)], given the result of
    [extractSchemaFromFile(filePath)] ([None] for [null]). *)
Definition parseMongooseModel (filePath : string)
  (extractedSchemas : option (list extracted)) : outcome (option (list value)) :=
  match extractedSchemas with
  | None | Some [] => Returns None
  | Some es =>
      ms ← mapM (parseExtracted filePath) es; mret (Some ms)
  end.

(** The loop of [parseMongooseModels(directory, options)], over the files
    [findMongooseModels] returned (the glob is outside this model), each
    with what [extractSchemaFromFile] gives for it:
    [if (parsedModels) models.push(...parsedModels)]. *)
Fixpoint parse_files (files : list (string * option (list extracted)))
  (models : list value) : outcome (list value) :=
  match files with
  | [] => mret models
  | (file, extractedSchemas) :: rest =>
      parsedModels ← parseMongooseModel file extractedSchemas;
      match parsedModels with
      | Some ms => parse_files rest (models ++ ms)
      | None => parse_files rest models
      end
  end.

Definition parseMongooseModels (files : list (string * option (list extracted)))
  : outcome (list value) :=
  parse_files files [].

End Raw.

Module Cleaner.

(** [s.endsWith(suffix)] *)
Fixpoint endsWith (suffix s : string) : bool :=
  (s =? suffix) ||
  match s with
  | EmptyString => false
  | String _ s' => endsWith suffix s'
  end.

(** The output directory as [fs.readdir] lists it: the names of its
    entries, or [None] when [fs.pathExists(outputDir)] is false. *)
Abbreviation directory := (option (list string)).

(** The [message] of the result, by kind: 'Output directory does not
    exist', 'Would delete n files', 'Deleted n generated files'. *)
Inductive clean_message : Type :=
| DirectoryDoesNotExist
| WouldDelete (n : nat)
| Deleted (n : nat).

(** The object [cleanGeneratedFiles] resolves with. *)
Record clean_result : Type := mkClean {
  c_success : bool;
  c_dryRun : bool;
  c_files : option (list string);
  deletedCount : option nat;
  message : option clean_message;
  c_error : option string
}.

(** [fs.remove(path.join(outputDir, file))] for an entry name. *)
Definition remove_entry (file : string) (entries : list string) : list string :=
  filter (fun name => name <> file) entries.

(** [for (const file of tsFiles) await fs.remove(...)]: the first refused
    removal ends the loop with what was removed so far gone. *)
Fixpoint remove_each (refused : string -> bool) (tsFiles entries : list string)
  : settled unit * list string :=
  match tsFiles with
  | [] => (Resolved tt, entries)
  | file :: rest =>
      if refused file then (Rejected "EIO", entries)
      else remove_each refused rest (remove_entry file entries)
  end.

(** [cleanGeneratedFiles(outputDir, {dryRun})], where the environment may
    refuse [fs.readdir] and the removal of the entries [refused] names. *)
Definition cleanGeneratedFiles (dryRun readdir_refused : bool)
  (refused : string -> bool) (dir : directory) : clean_result * directory :=
  match dir with
  | None =>
      ({| c_success := true; c_dryRun := false; c_files := None;
          deletedCount := None; message := Some DirectoryDoesNotExist;
          c_error := None |}, None)
  | Some entries =>
      if readdir_refused then
        ({| c_success := false; c_dryRun := false; c_files := None;
            deletedCount := None; message := None; c_error := Some "EIO" |},
         Some entries)
      else
        let tsFiles := List.filter (endsWith ".ts") entries in
        if dryRun then
          ({| c_success := true; c_dryRun := true; c_files := Some tsFiles;
              deletedCount := None;
              message := Some (WouldDelete (length tsFiles));
              c_error := None |}, Some entries)
        else
          match remove_each refused tsFiles entries with
          | (Resolved _, entries') =>
              ({| c_success := true; c_dryRun := false; c_files := None;
                  deletedCount := Some (length tsFiles);
                  message := Some (Deleted (length tsFiles));
                  c_error := None |}, Some entries')
          | (Rejected e, entries') =>
              ({| c_success := false; c_dryRun := false; c_files := None;
                  deletedCount := None; message := None; c_error := Some e |},
               Some entries')
          end
  end.

End Cleaner.
Import Cleaner.

Module WatcherControl.

(** The [watcher] variable of [watchFiles] and the chokidar watchers that
    are open, each named by the number of the [start] that created it. *)
Record handles : Type := mkHandles {
  watcher : option nat;
  opened : list nat;
  started : nat
}.

Definition no_handles : handles :=
  {| watcher := None; opened := []; started := 0 |}.

(** [start()]: [watcher = chokidar.watch(...)]. *)
Definition start (h : handles) : handles :=
  {| watcher := Some (started h);
     opened := started h :: opened h;
     started := S (started h) |}.

(** [stop()]: [if (watcher) await watcher.close()]. *)
Definition stop (h : handles) : handles :=
  match watcher h with
  | Some w =>
      {| watcher := Some w;
         opened := filter (fun w' => w' <> w) (opened h);
         started := started h |}
  | None => h
  end.

(** [restart()]: [await stop(); return start()]. *)
Definition restart (h : handles) : handles := start (stop h).

(** [get isWatching() { return watcher !== undefined; }] *)
Definition isWatching (h : handles) : bool :=
  bool_decide (is_Some (watcher h)).

Inductive command : Type := Start | Stop | Restart.

Definition control (h : handles) (c : command) : handles :=
  match c with
  | Start => start h
  | Stop => stop h
  | Restart => restart h
  end.

End WatcherControl.
Import WatcherControl.

Module MoreTerms.

(** The type names [extractFieldType] can give a field: the values of
    [MONGOOSE_TYPE_MAP], ['array'] and ['any']. *)
Definition extracted_types : list string :=
  [ "string"; "number"; "boolean"; "Date"; "Record<string, any>"; "object";
    "array"; "any" ].

(** What [type] and [arrayOf] can hold: one of the eight type names, or,
    for a marker named like a member of [Object.prototype], that member. *)
Definition type_value (v : value) : Prop :=
  (exists t, v = VStr t /\ In t extracted_types) \/
  In v (map snd Object_prototype).

(** A consistent type info: [type] is a [type_value]; [isArray] is absent
    together with [arrayOf], or [true] with [type] ['array'] and [arrayOf]
    a [type_value]; [isEnum] is absent together with [enumValues], or
    [true] with truthy [enumValues]; [isReference] is absent or [false]
    with no [referenceTo], or [true] with a truthy [referenceTo]. *)
Definition consistent (r : object) : Prop :=
  type_value (get "type" r) /\
  ((get "isArray" r = VUndefined /\ get "arrayOf" r = VUndefined) \/
   (get "isArray" r = VBool true /\ get "type" r = VStr "array" /\
    type_value (get "arrayOf" r))) /\

  ((get "isEnum" r = VUndefined /\ get "enumValues" r = VUndefined) \/
   (get "isEnum" r = VBool true /\ truthy (get "enumValues" r) = true)) /\
  (((get "isReference" r = VUndefined \/ get "isReference" r = VBool false) /\
    get "referenceTo" r = VUndefined) \/
   (get "isReference" r = VBool true /\ truthy (get "referenceTo" r) = true)).

(** Files of a batch that cannot disturb each other: no two share a path,
    and no path is the temporary or backup sibling of another's. *)
Definition independent_paths (files : list file) : Prop :=
  NoDup (map path files) /\
  forall f g, In f files -> In g files ->
    path f <> path g +:+ ".tmp" /\ path f <> path g +:+ ".backup".

(** The typed view [e] of an extracted schema: a model name that is a
    string, [schema.obj] and [schema.paths] that are objects. *)
Definition describes (e : extracted) (raw : Raw.extracted) : Prop :=
  Raw.modelName raw = VStr (ex_modelName e) /\
  getp (Raw.schema raw) "obj" = VObj (ex_obj e) /\
  getp (Raw.schema raw) "paths" = VObj (ex_paths e).

(** An extracted schema of the shape Mongoose gives it. *)
Definition well_shaped (raw : Raw.extracted) : Prop :=
  exists e, describes e raw.

(** A JavaScript boolean. *)
Definition is_bool (v : value) : Prop := exists b, v = VBool b.

(** The run log and the pending timeout of the watcher only name changes
    of [seen], each [delay] after the change. *)
Definition from_changes (delay : nat) (seen : list event) (s : state) : Prop :=
  (forall t p, In (t, p) (runs s) ->
     exists t0, In (Change t0 p) seen /\ t = t0 + delay) /\
  (forall due p, timeoutId s = Some (due, p) ->
     exists t0, In (Change t0 p) seen /\ due = t0 + delay).

End MoreTerms.
Import MoreTerms.

(** ** Proof steps shared by the writer proofs *)

(** Unfolds the [async] functions of the writer down to the primitives. *)
Ltac io_unfold :=
  unfold writeFileSafe, prepare, commit, rollback, createBackup, restoreBackup,
    removeBackup, checkWritePermission, ensureDirectory, try_catch, throw,
    fs_ensureDir, fs_access, fs_pathExists, fs_copy, fs_writeFile, fs_rename,
    fs_remove, mbind, mret, io_bind, io_ret in *.

(** Rewrites the lookups of inserted and deleted paths. *)
Ltac map_lookups :=
  repeat (rewrite ?lookup_insert_eq, ?lookup_delete_eq;
          rewrite ?lookup_insert_ne, ?lookup_delete_ne by congruence).

(** Case analysis on the refusals met along one [writeFileSafe]. *)
Ltac io_cases ft Hp :=
  repeat (match goal with
          | |- context [ft ?c] => destruct (ft c) eqn:?
          end; repeat (rewrite ?Hp; map_lookups; cbn)).

(** * Properties *)

(** ** Objects *)

Section ObjectFacts.

Lemma on_prop_get {A : Type} (f : value -> A) (k : string) (o : object) :
  on_prop f (f VUndefined) k o = f (get k o).
Proof.
  induction o as [|[k' v] o IH]; simpl; [reflexivity|].
  destruct (k =? k'); [reflexivity | exact IH].
Qed.

Lemma get_assign_eq (k : string) (v : value) (o : object) :
  get k (assign k v o) = v.
Proof.
  induction o as [|[k' v'] o IH]; simpl.
  - now rewrite String.eqb_refl.
  - destruct (k =? k') eqn:E; simpl.
    + now rewrite String.eqb_refl.
    + now rewrite E.
Qed.

Lemma get_assign_ne (k k' : string) (v : value) (o : object) :
  k <> k' -> get k (assign k' v o) = get k o.
Proof.
  intros Hne. apply String.eqb_neq in Hne.
  induction o as [|[k0 v0] o IH]; simpl.
  - now rewrite Hne.
  - destruct (k' =? k0) eqn:E; simpl.
    + apply String.eqb_eq in E. subst k0. now rewrite Hne.
    + destruct (k =? k0); [reflexivity | exact IH].
Qed.

Lemma has_false_get (k : string) (o : object) :
  has k o = false -> get k o = VUndefined.
Proof.
  induction o as [|[k' v] o IH]; simpl; [reflexivity|].
  destruct (k =? k'); simpl; [discriminate | exact IH].
Qed.




(** Induction over values that reaches the elements of arrays and the
    property values of objects. *)
Lemma value_nested_ind (P : value -> Prop) :
  P VUndefined -> P VNull ->
  (forall b, P (VBool b)) -> (forall n, P (VNum n)) ->
  (forall s, P (VStr s)) -> (forall n, P (VFun n)) ->
  (forall l, Forall P l -> P (VArr l)) ->
  (forall o, Forall (fun kv => P (snd kv)) o -> P (VObj o)) ->
  forall v, P v.
Proof.
  intros Hu Hn Hb Hz Hs Hf Ha Ho.
  fix IH 1.
  intros [| |b|n|s|n|l|o];
    [exact Hu | exact Hn | apply Hb | apply Hz | apply Hs | apply Hf | | ].
  - apply Ha. induction l as [|x l IHl]; constructor; [apply IH | exact IHl].
  - apply Ho. induction o as [|[k x] o IHo]; constructor; [apply IH | exact IHo].
Qed.

Lemma Forall_get (P : value -> Prop) (k : string) (o : object) :
  P VUndefined -> Forall (fun kv => P (snd kv)) o -> P (get k o).
Proof.
  intros Hu Ho. induction Ho as [|[k' v] o Hv _ IH]; simpl; [exact Hu|].
  destruct (k =? k'); [exact Hv | exact IH].
Qed.

End ObjectFacts.

(** ** The parser: unfolding equations *)

Section ParserEquations.

(** The object case of [extractFieldType] as the source has it, with the
    recursive call on [fieldDef.type]. *)
Lemma extractFieldType_object (props : object) :
  extractFieldType (VObj props) =
    if truthy (get "type" props) then
      let typeInfo := extractFieldType (get "type" props) in
      if truthy (get "enum" props) then
        assign "enumValues" (get "enum" props)
          (assign "isEnum" (VBool true) typeInfo)
      else if truthy (get "ref" props) then
        assign "referenceTo" (get "ref" props)
          (assign "isReference" (VBool true) typeInfo)
      else typeInfo
    else if truthy (get "enum" props) then
      [ ("type", VStr STANDARD_TYPES.STRING);
        ("isEnum", VBool true);
        ("enumValues", get "enum" props) ]
    else fallthrough.
Proof.
  cbn [extractFieldType].
  rewrite <- (on_prop_get extractFieldType).
  reflexivity.
Qed.

(** The [nested] property is the recursive [parseSchemaFields(fieldDef)]. *)
Lemma parseField_nested (pathInfo : value) (fieldName : string) (props : object) :
  get "nested" (parseField pathInfo fieldName (VObj props)) =
    if negb (truthy (get "type" props)) && negb (truthy (get "enum" props))
    then VArr (map VObj (parseSchemaFields props []))
    else VNull.
Proof. reflexivity. Qed.

Lemma parseSchemaFields_cons (fieldName : string) (fieldDef : value)
  (rest schemaPaths : object) :
  parseSchemaFields ((fieldName, fieldDef) :: rest) schemaPaths =
    if startsWith_underscore fieldName then parseSchemaFields rest schemaPaths
    else parseField (get fieldName schemaPaths) fieldName fieldDef
           :: parseSchemaFields rest schemaPaths.
Proof.
  unfold parseSchemaFields. cbn [for_entries].
  now destruct (startsWith_underscore fieldName).
Qed.

Lemma parseSchemaFields_app (before rest schemaPaths : object) :
  parseSchemaFields (before ++ rest) schemaPaths =
    parseSchemaFields before schemaPaths ++ parseSchemaFields rest schemaPaths.
Proof.
  unfold parseSchemaFields.
  induction before as [|[k v] before IH]; [reflexivity|].
  cbn [app for_entries]. destruct (startsWith_underscore k); [exact IH|].
  cbn [app]. now rewrite IH.
Qed.

(** A name every object inherits is no own key of the table, and the
    lookup finds the inherited member, which is truthy. *)
Lemma inherited_lookup (inherited : string) :
  In inherited (map fst Object_prototype) ->
  get inherited MONGOOSE_TYPE_MAP = VUndefined /\
  get_inherited inherited MONGOOSE_TYPE_MAP = get inherited Object_prototype /\
  truthy (get inherited Object_prototype) = true /\
  In (get inherited Object_prototype) (map snd Object_prototype).
Proof.
  cbn [map fst Object_prototype In]. intros H.
  repeat (destruct H as [<-|H]; [vm_compute; intuition|]).
  destruct H.
Qed.

End ParserEquations.

(** ** Parser and normalizer *)

Section FieldProperties.

Lemma parseField_required (pathInfo : value) (fieldName : string) (fieldDef : value) :
  get "required" (parseField pathInfo fieldName fieldDef) =
    VBool (if truthy (and_ pathInfo (getp pathInfo "isRequired")) then true
           else if is_object_like fieldDef
                then is_true (getp fieldDef "required") else false).
Proof. destruct fieldDef; reflexivity. Qed.

Lemma parseField_defaultValue (pathInfo : value) (fieldName : string) (fieldDef : value) :
  get "defaultValue" (parseField pathInfo fieldName fieldDef) =
    if is_object_like fieldDef && hasp "default" fieldDef
    then getp fieldDef "default" else VNull.
Proof. destruct fieldDef; reflexivity. Qed.

Lemma omits_required_not_true (fieldDef : value) :
  omits_required fieldDef = true ->
  (if is_object_like fieldDef then is_true (getp fieldDef "required") else false)
  = false.
Proof.
  intros H.
  destruct fieldDef as [| |b|n|s|n|l|o]; cbn in *; try reflexivity.
  - apply andb_false_r.
  - apply andb_false_r.
  - apply andb_false_r.
  - apply negb_true_iff in H. now rewrite (has_false_get _ _ H).
Qed.

Lemma normalizeField_required (field : value) :
  nullish field = false ->
  exists nf, normalizeField field = Returns nf /\
             getp nf "required" = VBool (is_not_false (getp field "required")).
Proof.
  intros H. unfold normalizeField. rewrite H. eexists. split; reflexivity.
Qed.

(** C1 (as amended).  A field definition that omits the required marker
    comes out of extraction plus normalization with [required] equal to
    what the schema's path info says ([isRequired] truthy), hence [false]
    when the path info is silent; the default [true] of [normalizeField]
    applies only to an input field whose [required] is not [false]. *)
Theorem required_follows_path_info
  (fieldName : string) (fieldDef : value) (before rest schemaPaths : object) :
  startsWith_underscore fieldName = false ->
  omits_required fieldDef = true ->
  let pathInfo := get fieldName schemaPaths in
  (exists raw nf,
      parseSchemaFields (before ++ (fieldName, fieldDef) :: rest) schemaPaths =
        parseSchemaFields before schemaPaths
          ++ raw :: parseSchemaFields rest schemaPaths /\
      get "name" raw = VStr fieldName /\
      normalizeField (VObj raw) = Returns nf /\
      getp nf "required" = VBool (truthy (and_ pathInfo (getp pathInfo "isRequired")))) /\
  (forall field, nullish field = false ->
      is_not_false (getp field "required") = true ->
      exists nf, normalizeField field = Returns nf /\ getp nf "required" = VBool true).
Proof.
  intros Hname Homit pathInfo. split.
  - rewrite parseSchemaFields_app, parseSchemaFields_cons, Hname.
    destruct (normalizeField_required (VObj (parseField pathInfo fieldName fieldDef)) eq_refl)
      as (nf & Hnf & Hreq).
    exists (parseField pathInfo fieldName fieldDef), nf.
    split; [reflexivity|].
    split; [now destruct fieldDef|].
    split; [exact Hnf|].
    rewrite Hreq. cbn [getp]. rewrite parseField_required.
    rewrite (omits_required_not_true _ Homit). cbn [is_not_false].
    now destruct (truthy _).
  - intros field Hn Hreq.
    destruct (normalizeField_required field Hn) as (nf & Hnf & Hr).
    exists nf. split; [exact Hnf|]. now rewrite Hr, Hreq.
Qed.

Lemma required_follows_path_info_witness :
  (exists raw nf,
      parseSchemaFields
        [ ("name", VObj [("type", VFun "String"); ("required", VBool true)]);
          ("age", VFun "Number") ] []
      = parseSchemaFields
          [ ("name", VObj [("type", VFun "String"); ("required", VBool true)]) ] []
          ++ raw :: parseSchemaFields [] [] /\
      get "name" raw = VStr "age" /\
      normalizeField (VObj raw) = Returns nf /\
      getp nf "required" = VBool false) /\
  (forall field, nullish field = false ->
      is_not_false (getp field "required") = true ->
      exists nf, normalizeField field = Returns nf /\ getp nf "required" = VBool true).
Proof.
  exact (required_follows_path_info "age" (VFun "Number")
           [ ("name", VObj [("type", VFun "String"); ("required", VBool true)]) ]
           [] [] eq_refl eq_refl).
Defined.

(** C1 (as stated) fails: the model [{name: {type: String, required: true},
    age: Number}] goes through [parseMongooseModel] and [age], which has
    no required marker, is normalized with [required = false]. *)
Lemma required_default_counterexample :
  exists model name age,
    parseMongooseModel "User.js"
      (Some [mkExtracted "User"
               [ ("name", VObj [("type", VFun "String"); ("required", VBool true)]);
                 ("age", VFun "Number") ] []])
    = Returns (Some [model]) /\
    getp model "fields" = VArr [name; age] /\
    omits_required (VFun "Number") = true /\
    getp age "name" = VStr "age" /\
    getp age "required" = VBool false /\
    getp age "required" <> VBool true.
Proof.
  do 3 eexists. split; [vm_compute; reflexivity|].
  split; [reflexivity|]. repeat split. discriminate.
Qed.

End FieldProperties.

Section ExtractionProperties.

(** C4 (evaluation at the failing shape).  The array case of
    [extractFieldType] copies only the element's type and reference
    properties: whatever the elements are, the result carries no [isEnum]
    and no [enumValues], so [parseSchemaFields] emits [isEnum = false],
    [enumValues = null] and a falsy [isEnumArray]; for
    [[{type: String, enum: ['a','b']}]] this is a plain array of string. *)
Theorem array_wrapper_drops_enum (elems : list value) (pathInfo : value)
  (fieldName : string) :
  get "isEnum" (extractFieldType (VArr elems)) = VUndefined /\
  get "enumValues" (extractFieldType (VArr elems)) = VUndefined /\
  get "isEnum" (parseField pathInfo fieldName (VArr elems)) = VBool false /\
  get "enumValues" (parseField pathInfo fieldName (VArr elems)) = VNull /\
  get "isEnumArray" (parseField pathInfo fieldName (VArr elems)) = VUndefined /\
  extractFieldType
    (VArr [VObj [("type", VFun "String"); ("enum", VArr [VStr "a"; VStr "b"])]])
  = [ ("type", VStr "array"); ("isArray", VBool true); ("arrayOf", VStr "string");
      ("isReference", VBool false); ("referenceTo", VUndefined) ] /\
  get "isEnum"
    (extractFieldType (VObj [("type", VFun "String"); ("enum", VArr [VStr "a"; VStr "b"])]))
  = VBool true.
Proof.
  destruct elems as [|first more]; repeat split; reflexivity.
Qed.

(** The sibling path: a reference on the element does reach the field. *)
Lemma array_wrapper_keeps_reference (first : value) (more : list value) :
  get "isReference" (extractFieldType (VArr (first :: more)))
    = get "isReference" (extractFieldType first) /\
  get "referenceTo" (extractFieldType (VArr (first :: more)))
    = get "referenceTo" (extractFieldType first).
Proof. split; reflexivity. Qed.

(** C5 (as amended).  With a truthy [type] and a truthy [enum], the result
    is the type's own resolution with the enum overlay and nothing else:
    a [ref] on the same definition is not read, and [isReference] and
    [referenceTo] are those of the resolved [type]. *)
Theorem enum_overlay_returns_before_ref (props : object) :
  truthy (get "type" props) = true ->
  truthy (get "enum" props) = true ->
  let typeInfo := extractFieldType (get "type" props) in
  let result := extractFieldType (VObj props) in
  result = assign "enumValues" (get "enum" props)
             (assign "isEnum" (VBool true) typeInfo) /\
  get "isEnum" result = VBool true /\
  get "enumValues" result = get "enum" props /\
  get "type" result = get "type" typeInfo /\
  get "isReference" result = get "isReference" typeInfo /\
  get "referenceTo" result = get "referenceTo" typeInfo.
Proof.
  intros Ht He typeInfo result. subst result.
  rewrite extractFieldType_object, Ht, He. cbv zeta. fold typeInfo.
  split; [reflexivity|].
  split; [rewrite get_assign_ne by discriminate; apply get_assign_eq|].
  split; [apply get_assign_eq|].
  repeat split; rewrite !get_assign_ne by discriminate; reflexivity.
Qed.

Lemma enum_overlay_returns_before_ref_witness :
  let props := [ ("type", VFun "String"); ("enum", VArr [VStr "a"; VStr "b"]);
                 ("ref", VStr "User") ] in
  let typeInfo := extractFieldType (VFun "String") in
  let result := extractFieldType (VObj props) in
  result = assign "enumValues" (get "enum" props)
             (assign "isEnum" (VBool true) typeInfo) /\
  get "isEnum" result = VBool true /\
  get "enumValues" result = get "enum" props /\
  get "type" result = get "type" typeInfo /\
  get "isReference" result = get "isReference" typeInfo /\
  get "referenceTo" result = get "referenceTo" typeInfo.
Proof.
  exact (enum_overlay_returns_before_ref
           [ ("type", VFun "String"); ("enum", VArr [VStr "a"; VStr "b"]);
             ("ref", VStr "User") ] eq_refl eq_refl).
Defined.

(** C5 (as stated) fails: on [{type: String, enum: ['a','b'], ref: 'User'}]
    the field is enum-typed but not reference-typed, and the target model
    name is nowhere in the result. *)
Lemma enum_and_ref_counterexample :
  let result :=
    extractFieldType
      (VObj [ ("type", VFun "String"); ("enum", VArr [VStr "a"; VStr "b"]);
              ("ref", VStr "User") ]) in
  get "isEnum" result = VBool true /\
  get "isReference" result = VBool false /\
  get "isReference" result <> VBool true /\
  get "referenceTo" result = VUndefined /\
  get "referenceTo" result <> VStr "User".
Proof. cbv zeta. repeat split; try reflexivity; discriminate. Qed.

(** Without an [enum] the [ref] overlay is applied. *)
Lemma ref_overlay_without_enum (props : object) :
  truthy (get "type" props) = true ->
  truthy (get "enum" props) = false ->
  truthy (get "ref" props) = true ->
  get "isReference" (extractFieldType (VObj props)) = VBool true /\
  get "referenceTo" (extractFieldType (VObj props)) = get "ref" props.
Proof.
  intros Ht He Hr. rewrite extractFieldType_object, Ht, He, Hr. cbv zeta.
  split; [rewrite get_assign_ne by discriminate|]; apply get_assign_eq.
Qed.

(** C10 (evaluation at the failing inputs, with the parts that hold).
    The empty array wrapper yields
    [{type: 'array', isArray: true, arrayOf: 'any'}]; a marker under which
    the lookup in [MONGOOSE_TYPE_MAP] finds nothing yields type ['any'];
    [null], [undefined] and every value of none of the five recognized
    shapes yield [{type: 'any', isReference: false}].  But a marker named
    like a member of [Object.prototype], which is no key of the table,
    does not yield ['any']: the lookup finds the inherited member, which
    is truthy, so [|| 'any'] does not apply and the member becomes the
    [type]; for ['constructor'] that is the function [Object]. *)
Theorem extractFieldType_inherited_marker
  (fieldDef : value) (marker inherited : string) :
  get_inherited marker MONGOOSE_TYPE_MAP = VUndefined ->
  recognized_shape fieldDef = false ->
  In inherited (map fst Object_prototype) ->
  (extractFieldType (VArr []) =
     [ ("type", VStr "array"); ("isArray", VBool true); ("arrayOf", VStr "any") ] /\
   extractFieldType (VFun marker) =
     [ ("type", VStr "any"); ("isReference", VBool false) ] /\
   extractFieldType (VStr marker) =
     [ ("type", VStr "any"); ("isReference", VBool false) ] /\
   extractFieldType VNull = [ ("type", VStr "any"); ("isReference", VBool false) ] /\
   extractFieldType VUndefined = [ ("type", VStr "any"); ("isReference", VBool false) ] /\
   extractFieldType fieldDef = [ ("type", VStr "any"); ("isReference", VBool false) ]) /\
  (get inherited MONGOOSE_TYPE_MAP = VUndefined /\
   extractFieldType (VStr inherited) =
     [ ("type", get inherited Object_prototype); ("isReference", VBool false) ] /\
   extractFieldType (VFun inherited) =
     [ ("type", get inherited Object_prototype); ("isReference", VBool false) ] /\
   get inherited Object_prototype <> VStr "any" /\
   extractFieldType (VStr "constructor") =
     [ ("type", VFun "Object"); ("isReference", VBool false) ] /\
   extractFieldType (VFun "toString") =
     [ ("type", VFun "toString"); ("isReference", VBool false) ]).
Proof.
  intros Hmarker Hshape Hin. split.
  - split; [reflexivity|].
    split; [cbn [extractFieldType]; now rewrite Hmarker|].
    split; [cbn [extractFieldType]; now rewrite Hmarker|].
    split; [reflexivity|]. split; [reflexivity|].
    destruct fieldDef as [| |b|n|s|n|l|o]; try reflexivity; try discriminate.
    rewrite extractFieldType_object.
    cbn [recognized_shape] in Hshape. apply orb_false_iff in Hshape as [Ht He].
    now rewrite Ht, He.
  - destruct (inherited_lookup inherited Hin) as (Hown & Hget & Htruthy & Hmem).
    split; [exact Hown|].
    assert (Hor : or_ (get_inherited inherited MONGOOSE_TYPE_MAP)
                      (VStr STANDARD_TYPES.ANY) = get inherited Object_prototype).
    { rewrite Hget. unfold or_. now rewrite Htruthy. }
    split; [cbn [extractFieldType]; now rewrite Hor|].
    split; [cbn [extractFieldType]; now rewrite Hor|].
    split; [|split; reflexivity].
    intros Hany. rewrite Hany in Hmem. vm_compute in Hmem.
    repeat (destruct Hmem as [Hmem|Hmem]; [discriminate|]). exact Hmem.
Qed.

Lemma extractFieldType_inherited_marker_witness :
  (extractFieldType (VArr []) =
     [ ("type", VStr "array"); ("isArray", VBool true); ("arrayOf", VStr "any") ] /\
   extractFieldType (VFun "Widget") =
     [ ("type", VStr "any"); ("isReference", VBool false) ] /\
   extractFieldType (VStr "Widget") =
     [ ("type", VStr "any"); ("isReference", VBool false) ] /\
   extractFieldType VNull = [ ("type", VStr "any"); ("isReference", VBool false) ] /\
   extractFieldType VUndefined = [ ("type", VStr "any"); ("isReference", VBool false) ] /\
   extractFieldType (VObj [("required", VBool true); ("type", VNum 0)]) =
     [ ("type", VStr "any"); ("isReference", VBool false) ]) /\
  (get "hasOwnProperty" MONGOOSE_TYPE_MAP = VUndefined /\
   extractFieldType (VStr "hasOwnProperty") =
     [ ("type", get "hasOwnProperty" Object_prototype); ("isReference", VBool false) ] /\
   extractFieldType (VFun "hasOwnProperty") =
     [ ("type", get "hasOwnProperty" Object_prototype); ("isReference", VBool false) ] /\
   get "hasOwnProperty" Object_prototype <> VStr "any" /\
   extractFieldType (VStr "constructor") =
     [ ("type", VFun "Object"); ("isReference", VBool false) ] /\
   extractFieldType (VFun "toString") =
     [ ("type", VFun "toString"); ("isReference", VBool false) ]).
Proof.
  apply (extractFieldType_inherited_marker
           (VObj [("required", VBool true); ("type", VNum 0)])
           "Widget" "hasOwnProperty" eq_refl eq_refl).
  cbn [map fst Object_prototype In]. do 3 right. left. reflexivity.
Defined.

End ExtractionProperties.

Section ValidationProperties.

(** C6 (evaluation at failing inputs).  [validateSchema] throws instead of
    returning [{valid, errors}] when [fields] is a keyed object, a string,
    or an array holding [null], and when the schema itself is [null]:
    [?.] guards only a [null] or [undefined] [fields], and the callback
    reads [field.name] unguarded. *)
Theorem validateSchema_throws_on_wrong_shape :
  validateSchema
    (VObj [ ("modelName", VStr "User");
            ("fields", VObj [("id", VObj [("type", VStr "string")])]) ])
  = Throws "TypeError" /\
  validateSchema (VObj [("modelName", VStr "User"); ("fields", VStr "abc")])
  = Throws "TypeError" /\
  validateSchema (VObj [("modelName", VStr "User"); ("fields", VArr [VNull])])
  = Throws "TypeError" /\
  validateSchema VNull = Throws "TypeError".
Proof. repeat split; reflexivity. Qed.

(** A missing [fields] does come back as a structured result. *)
Example validateSchema_missing_fields :
  validateSchema (VObj [("modelName", VStr "User")])
  = Returns {| valid := false; errors := [ModelMustHaveFieldsArray] |}.
Proof. reflexivity. Qed.

Lemma check_field_returns (index : nat) (field : value) (e : list validation_error) :
  check_field index field = Returns e -> (e = [] <-> field_ok field).
Proof.
  unfold check_field, field_ok. destruct (nullish field); [discriminate|].
  intros [= <-].
  destruct (truthy (getp field "name")), (truthy (getp field "type"));
    cbn; split; try tauto; try discriminate; intros [? ?]; discriminate.
Qed.

Lemma check_fields_returns (fields : list value) :
  forall index e, check_fields index fields = Returns e ->
                  (e = [] <-> Forall field_ok fields).
Proof.
  induction fields as [|f fs IH]; intros index e; cbn [check_fields].
  - intros [= <-]. split; [constructor | reflexivity].
  - destruct (check_field index f) as [e1| |] eqn:H1; cbn; try discriminate.
    destruct (check_fields (S index) fs) as [e2| |] eqn:H2; cbn; try discriminate.
    intros [= <-].
    pose proof (check_field_returns _ _ _ H1) as Hf.
    pose proof (IH _ _ H2) as Hfs.
    split.
    + intros Happ. apply app_eq_nil in Happ as [-> ->].
      constructor; [now apply Hf | now apply Hfs].
    + intros Hall. inversion Hall as [|? ? Hok Hrest]; subst.
      apply Hf in Hok. apply Hfs in Hrest. now subst.
Qed.

(** Whenever [validateSchema] returns, [valid] is [true] exactly when the
    model name is truthy, [fields] is an array and every field has a truthy
    [name] and [type]. *)
Lemma validateSchema_valid_iff (schema : value) (r : validation_result) :
  validateSchema schema = Returns r ->
  (valid r = true <->
   truthy (getp schema "modelName") = true /\
   exists l, getp schema "fields" = VArr l /\ Forall field_ok l).
Proof.
  unfold validateSchema. destruct (nullish schema); [discriminate|].
  destruct (getp schema "fields") as [| |b|n|s|n|l|o] eqn:Hfields;
    cbn; try discriminate.
  - intros [= <-]. cbn. split; [|intros (_ & l & [=] & _)].
    destruct (truthy _); cbn; discriminate.
  - intros [= <-]. cbn. split; [|intros (_ & l & [=] & _)].
    destruct (truthy _); cbn; discriminate.
  - destruct (check_fields 0 l) as [e3| |] eqn:H3; cbn; try discriminate.
    intros [= <-]. cbn.
    pose proof (check_fields_returns _ _ _ H3) as Hl.
    destruct (truthy (getp schema "modelName")); cbn.
    + split.
      * intros Hlen. split; [reflexivity|]. exists l. split; [reflexivity|].
        apply Hl. destruct e3; [reflexivity | discriminate].
      * intros (_ & l' & [= <-] & Hall). apply Hl in Hall. now subst.
    + split; [discriminate | intros [[=] _]].
  - destruct (get "forEach" o); cbn; discriminate.
Qed.

End ValidationProperties.

Section DefaultValueProperties.






End DefaultValueProperties.

(** ** Safe writer *)

Section WriterProperties.

Lemma append_cons (c : ascii) (p s : string) :
  String c p +:+ s = String c (p +:+ s).
Proof. reflexivity. Qed.

Lemma append_inj_l (p s1 s2 : string) : p +:+ s1 = p +:+ s2 -> s1 = s2.
Proof.
  induction p as [|c p IH]; [exact (fun H => H)|].
  rewrite !append_cons. intros [= H]. exact (IH H).
Qed.

Lemma append_empty_r (p : string) : p +:+ "" = p.
Proof.
  induction p as [|c p IH]; [reflexivity|]. now rewrite append_cons, IH.
Qed.

Lemma append_ne_self (p s : string) : s <> "" -> p +:+ s <> p.
Proof.
  intros Hs H. apply Hs, (append_inj_l p). now rewrite append_empty_r.
Qed.

(** When [prepare] hands over a backup path, the backup sits next to the
    destination and holds the destination's content. *)
Lemma prepare_backup (path prior backup : string) (shouldBackup : bool)
  (ft : faults) (fs fs1 : FS) :
  fs !! path = Some prior ->
  prepare path shouldBackup ft fs = (Resolved (Some backup), fs1) ->
  backup = path +:+ ".backup" /\ fs1 = <[backup := prior]> fs.
Proof.
  intros Hprior. io_unfold.
  destruct (ft CallEnsureDir); [discriminate|].
  destruct (ft CallAccess); cbn; [discriminate|].
  destruct shouldBackup; [|discriminate].
  rewrite Hprior. cbn. destruct (ft CallCopyToBackup); [discriminate|].
  rewrite Hprior. now intros [= <- <-].
Qed.

(** The [catch] block never rejects. *)
Lemma rollback_resolves (path : string) (backupPath : option string) (e : string)
  (ft : faults) (fs : FS) :
  exists fs',
    rollback path backupPath e ft fs =
      (Resolved {| success := false; filePath := path;
                   backupCreated := None; error := Some e |}, fs').
Proof.
  io_unfold. destruct backupPath as [b|]; cbv beta; [|eexists; reflexivity].
  destruct (bool_decide (is_Some (fs !! b))); [|eexists; reflexivity].
  destruct (ft CallCopyFromBackup); [eexists; reflexivity|].
  destruct (fs !! b); [|eexists; reflexivity].
  destruct (ft CallRemoveRestored); eexists; reflexivity.
Qed.

(** [writeFileSafe] always resolves, with an object naming the file. *)
Lemma writeFileSafe_resolves (path content : string) (shouldBackup : bool)
  (ft : faults) (fs : FS) :
  exists r fs',
    writeFileSafe path content shouldBackup ft fs = (Resolved r, fs') /\
    filePath r = path.
Proof.
  unfold writeFileSafe, try_catch at 1, mbind, io_bind.
  destruct (prepare path shouldBackup ft fs) as [[backupPath|e] fs1].
  - unfold try_catch.
    destruct (commit path content backupPath ft fs1) as [[r|e] fs2] eqn:Hc.
    + exists r, fs2. split; [reflexivity|].
      revert Hc. io_unfold. cbv beta.
      destruct (ft CallWriteTemp); [discriminate|]. rewrite lookup_insert_eq.
      destruct (ft CallRename); [discriminate|].
      destruct backupPath as [b|].
      * destruct (bool_decide _); [destruct (ft CallRemoveBackup)|];
          try discriminate; now intros [= <- _].
      * now intros [= <- _].
    + destruct (rollback_resolves path backupPath e ft fs2) as [fs' ->].
      eexists _, _. split; reflexivity.
  - destruct (rollback_resolves path None e ft fs1) as [fs' ->].
    eexists _, _. split; reflexivity.
Qed.

(** C2 (as amended).  Once a backup was created, [writeFileSafe] resolves
    with a result object; a successful result leaves the new content at the
    destination, and a failed one, provided the copy that restores the
    backup is not itself refused, leaves the content the destination had
    before the call and carries the error. *)
Theorem rollback_restores_destination
  (path content prior backup : string) (shouldBackup : bool)
  (ft : faults) (fs fs1 : FS) :
  fs !! path = Some prior ->
  prepare path shouldBackup ft fs = (Resolved (Some backup), fs1) ->
  ft CallCopyFromBackup = false ->
  exists r fs',
    writeFileSafe path content shouldBackup ft fs = (Resolved r, fs') /\
    filePath r = path /\
    (success r = true -> fs' !! path = Some content) /\
    (success r = false -> fs' !! path = Some prior /\ exists e, error r = Some e).
Proof.
  intros Hprior Hprep Hrestore.
  destruct (prepare_backup _ _ _ _ _ _ _ Hprior Hprep) as [-> ->].
  assert (Hbt : path +:+ ".backup" <> path +:+ ".tmp")
    by (intros H; apply append_inj_l in H; discriminate).
  assert (Hbp : path +:+ ".backup" <> path) by (apply append_ne_self; discriminate).
  assert (Htp : path +:+ ".tmp" <> path) by (apply append_ne_self; discriminate).
  unfold writeFileSafe, try_catch at 1, mbind, io_bind. rewrite Hprep.
  clear Hprep. io_unfold. cbv beta.
  destruct (ft CallWriteTemp) eqn:Hw, (ft CallRename) eqn:Hr,
    (ft CallRemoveBackup) eqn:Hb, (ft CallRemoveRestored) eqn:Hc;
    repeat (rewrite ?Hrestore, ?Hw, ?Hr, ?Hb, ?Hc; map_lookups; cbn).
  all: do 2 eexists; (split; [reflexivity|]); cbn.
  all: repeat split; intros; try discriminate; eauto.
  all: map_lookups; rewrite ?lookup_insert_eq; try reflexivity.
Qed.

Lemma rollback_restores_destination_witness :
  let ft : faults := fun c => match c with CallRename => true | _ => false end in
  exists r fs',
    writeFileSafe "types/index.ts" "new" true ft {["types/index.ts" := "old"]}
      = (Resolved r, fs') /\
    filePath r = "types/index.ts" /\
    (success r = true -> fs' !! "types/index.ts" = Some "new") /\
    (success r = false ->
       fs' !! "types/index.ts" = Some "old" /\ exists e, error r = Some e).
Proof.
  exact (rollback_restores_destination
           "types/index.ts" "new" "old" "types/index.ts.backup" true
           (fun c => match c with CallRename => true | _ => false end)
           {["types/index.ts" := "old"]}
           (<["types/index.ts.backup" := "old"]> {["types/index.ts" := "old"]})
           eq_refl eq_refl eq_refl).
Defined.

(** C2 (as stated) fails: a backup is created, the rename goes through,
    the removal of the backup is refused, and the restoring copy is refused
    as well; the call reports failure and the destination holds the new
    content, not the one it had before the call. *)
Lemma rollback_counterexample :
  let fs : FS := {["types/index.ts" := "old"]} in
  exists backup fs1 r fs',
    prepare "types/index.ts" true cleanup_and_restore_refused fs
      = (Resolved (Some backup), fs1) /\
    writeFileSafe "types/index.ts" "new" true cleanup_and_restore_refused fs
      = (Resolved r, fs') /\
    success r = false /\
    fs !! "types/index.ts" = Some "old" /\
    fs' !! "types/index.ts" = Some "new" /\
    fs' !! "types/index.ts" <> fs !! "types/index.ts".
Proof.
  cbv zeta.
  set (fs := {["types/index.ts" := "old"]} : FS).
  exists "types/index.ts.backup", (<["types/index.ts.backup" := "old"]> fs).
  exists {| success := false; filePath := "types/index.ts";
            backupCreated := None; error := Some "EIO" |}.
  exists (<["types/index.ts" := "new"]>
            (delete "types/index.ts.tmp"
               (<["types/index.ts.tmp" := "new"]>
                  (<["types/index.ts.backup" := "old"]> fs)))).
  split; [reflexivity|]. split; [reflexivity|].
  split; [reflexivity|]. split; [reflexivity|].
  split; [reflexivity|]. vm_compute. discriminate.
Qed.

(** With no call refused the write goes through, whatever is on disk. *)
Lemma writeFileSafe_no_faults (path content : string) (shouldBackup : bool)
  (ft : faults) (fs : FS) :
  (forall c, ft c = false) ->
  exists r fs',
    writeFileSafe path content shouldBackup ft fs = (Resolved r, fs') /\
    success r = true /\ fs' !! path = Some content.
Proof.
  intros Hok.
  assert (Hbt : path +:+ ".backup" <> path +:+ ".tmp")
    by (intros H; apply append_inj_l in H; discriminate).
  assert (Hbp : path +:+ ".backup" <> path) by (apply append_ne_self; discriminate).
  assert (Htp : path +:+ ".tmp" <> path) by (apply append_ne_self; discriminate).
  io_unfold. cbv beta. rewrite !Hok.
  destruct shouldBackup, (fs !! path) as [prior|] eqn:Hp;
    repeat (rewrite ?Hok, ?Hp; map_lookups; cbn).
  all: do 2 eexists; (split; [reflexivity|]); cbn.
  all: split; [reflexivity|]; map_lookups; now rewrite ?lookup_insert_eq.
Qed.

(** The loop gives every file its own result, in order, and a file whose
    calls are not refused is written whatever happened to the others. *)
Lemma write_each_spec (shouldBackup : bool) (schedule : nat -> faults)
  (files : list file) :
  forall (i : nat) (fs : FS),
  exists rs fs',
    write_each files shouldBackup schedule i fs = (Resolved rs, fs') /\
    map filePath rs = map path files /\
    (forall j f, files !! j = Some f ->
                 (forall c, schedule (i + j) c = false) ->
                 exists r, rs !! j = Some r /\ success r = true).
Proof.
  induction files as [|f rest IH]; intros i fs; cbn [write_each].
  - exists [], fs. repeat split. intros j f Hj. discriminate.
  - destruct (writeFileSafe_resolves (path f) (content f) shouldBackup (schedule i) fs)
      as (r & fs1 & Hw & Hpath).
    rewrite Hw.
    destruct (IH (S i) fs1) as (rs & fs2 & -> & Hpaths & Hind).
    exists (r :: rs), fs2. split; [reflexivity|].
    split; [cbn; now rewrite Hpath, Hpaths|].
    intros [|j] g Hj Hok; cbn in Hj.
    + injection Hj as <-. exists r. split; [reflexivity|].
      rewrite Nat.add_0_r in Hok.
      destruct (writeFileSafe_no_faults (path f) (content f) shouldBackup
                  (schedule i) fs Hok) as (r' & fs' & Hw' & Hs & _).
      rewrite Hw in Hw'. now injection Hw' as -> _.
    + apply (Hind j g Hj). intros c.
      replace (S i + j) with (i + S j) by lia. apply Hok.
Qed.

Lemma success_count (rs : list write_result) :
  length (filter (fun r => success r = true) rs) <= length rs /\
  (forallb success rs = true <->
   length (filter (fun r => success r = true) rs) = length rs).
Proof.
  induction rs as [|r rs [IHle IHiff]]; [cbn; split; [lia | tauto]|].
  rewrite filter_cons. cbn [forallb]. case_decide as Hs.
  - rewrite Hs. cbn [andb length]. split; [lia|]. rewrite IHiff. lia.
  - apply not_true_is_false in Hs. rewrite Hs. cbn [andb length]. split; [lia|].
    split; [discriminate | lia].
Qed.



(** One refused write does not stop the batch: the first file fails, the
    second is written, and the counts say one of each. *)
Example writeMultipleFiles_one_failure :
  let schedule : nat -> faults :=
    fun i c => match i, c with 0, CallWriteTemp => true | _, _ => false end in
  exists b fs',
    writeMultipleFiles [ mkFile "types/User.ts" "u"; mkFile "types/Post.ts" "p" ]
      true schedule ∅ = (Resolved b, fs') /\
    map success (results b) = [false; true] /\
    b_success b = false /\ total b = 2%Z /\
    successful b = 1%Z /\ failed b = 1%Z /\
    fs' !! "types/Post.ts" = Some "p".
Proof.
  cbv zeta. eexists _, _. split; [vm_compute; reflexivity|].
  repeat split; vm_compute; reflexivity.
Qed.

End WriterProperties.

(** ** File watcher *)

Section WatcherProperties.

Variable delay : nat.

Lemma fire_flight_ok (s : state) : flight_ok s -> flight_ok (fire s).
Proof.
  destruct s as [[[due changedPath]|] [|] n l];
    unfold flight_ok, fire, regenerate_callback; cbn; congruence.
Qed.

Lemma advance_flight_ok (t : nat) (s : state) : flight_ok s -> flight_ok (advance t s).
Proof.
  intros H. unfold advance.
  destruct (timeoutId s) as [[due changedPath]|] eqn:E; [|exact H].
  destruct (due <=? t)%nat; [now apply fire_flight_ok | exact H].
Qed.

Lemma step_flight_ok (s : state) (e : event) : flight_ok s -> flight_ok (step delay s e).
Proof.
  intros H. destruct e as [t changedPath|t]; cbn [step].
  - apply (advance_flight_ok t) in H. exact H.
  - apply (advance_flight_ok t) in H. revert H.
    destruct (advance t s) as [tm [|] [|n] l]; unfold flight_ok, settle; cbn;
      congruence.
Qed.

Lemma exec_flight_ok (trace : list event) :
  forall s, flight_ok s -> flight_ok (exec delay trace s).
Proof.
  induction trace as [|e trace IH]; intros s H; [exact H|].
  apply IH, step_flight_ok, H.
Qed.

Lemma flight_ok_le (s : state) : flight_ok s -> inflight s <= 1.
Proof. unfold flight_ok. destruct (isRegenerating s); lia. Qed.

(** A timeout that comes due fires: it is gone, and it starts a run only
    if none is in flight. *)
Lemma advance_due (s : state) (due t : nat) (changedPath : string) :
  timeoutId s = Some (due, changedPath) -> due <= t ->
  timeoutId (advance t s) = None /\
  runs (advance t s) =
    (if isRegenerating s then runs s else runs s ++ [(due, changedPath)]) /\
  isRegenerating (advance t s) = true.
Proof.
  intros Hid Hdue. unfold advance, fire, regenerate_callback. rewrite Hid.
  apply Nat.leb_le in Hdue. rewrite Hdue. cbn.
  destruct (isRegenerating s) eqn:E; cbn; rewrite ?E; auto.
Qed.

(** C3 (as amended).  Along every run of the watcher at most one
    [generateTypes] call is in flight.  When the timeout of a change comes
    due, it is removed; it starts a run if none is in flight, and while one
    is in flight it starts nothing and leaves nothing pending, so that
    change gets a follow-up run only from a timeout that expires after the
    current run has settled. *)
Theorem single_flight_and_dropped_trigger
  (trace : list event) (due t : nat) (changedPath : string) :
  let s := exec delay trace initial in
  timeoutId s = Some (due, changedPath) ->
  due <= t ->
  inflight s <= 1 /\
  inflight (advance t s) <= 1 /\
  timeoutId (advance t s) = None /\
  runs (advance t s) =
    (if isRegenerating s then runs s else runs s ++ [(due, changedPath)]).
Proof.
  intros s Hid Hdue.
  assert (Hs : flight_ok s) by (apply exec_flight_ok; reflexivity).
  split; [now apply flight_ok_le|].
  split; [now apply flight_ok_le, advance_flight_ok|].
  destruct (advance_due s due t changedPath Hid Hdue) as (H1 & H2 & _).
  now split.
Qed.

(** Within a burst the pending timeout is replaced before it is due. *)
Lemma burst_runs (rest : list (nat * string)) :
  forall (s : state) (t0 : nat) (p0 : string),
    timeoutId s = Some (t0 + delay, p0) ->
    burst_after delay t0 rest ->
    runs (finish (exec delay (changes rest) s)) =
      if isRegenerating s then runs s
      else runs s ++ [(fst (last_of (t0, p0) rest) + delay,
                       snd (last_of (t0, p0) rest))].
Proof.
  induction rest as [|[t1 p1] rest IH]; intros s t0 p0 Hid Hburst.
  - cbn. unfold finish, fire, regenerate_callback. rewrite Hid. cbn.
    now destruct (isRegenerating s).
  - destruct Hburst as (Hle & Hlt & Hrest).
    cbn [changes map exec fold_left step fst snd last_of].
    assert (Hadv : advance t1 s = s).
    { unfold advance. rewrite Hid.
      destruct (Nat.leb_spec (t0 + delay) t1); [lia | reflexivity]. }
    rewrite Hadv.
    exact (IH (debounced delay t1 p1 s) t1 p1 eq_refl Hrest).
Qed.

End WatcherProperties.

Section DebounceProperties.

(** C7 (as amended).  A burst of change events, each arriving before the
    timeout set by the previous one is due, that reaches a watcher with no
    timeout pending makes the callback run once, when the timeout of the
    most recent event is due: exactly one [generateTypes] call starts then
    if no run is in flight, and none if one is.  The delay is the configured
    one, 300 ms when nothing is configured. *)
Theorem burst_triggers_one_run
  (options_debounceDelay config_watchDebounce : option nat)
  (s : state) (first : nat * string) (rest : list (nat * string)) :
  let delay := debounceDelay options_debounceDelay config_watchDebounce in
  timeoutId s = None ->
  burst_after delay (fst first) rest ->
  debounceDelay None None = 300 /\
  runs (finish (exec delay (changes (first :: rest)) s)) =
    if isRegenerating s then runs s
    else runs s ++ [(fst (last_of first rest) + delay, snd (last_of first rest))].
Proof.
  intros delay Hid Hburst. split; [reflexivity|].
  destruct first as [t0 p0].
  cbn [changes map exec fold_left step fst snd].
  assert (Hadv : advance t0 s = s) by (unfold advance; now rewrite Hid).
  rewrite Hadv.
  exact (burst_runs delay rest (debounced delay t0 p0 s) t0 p0 eq_refl Hburst).
Qed.

End DebounceProperties.

Lemma single_flight_and_dropped_trigger_witness :
  let s := exec 300 [Change 0 "User.js"; Change 400 "Post.js"] initial in
  inflight s <= 1 /\
  inflight (advance 1000 s) <= 1 /\
  timeoutId (advance 1000 s) = None /\
  runs (advance 1000 s) = runs s.
Proof.
  exact (single_flight_and_dropped_trigger 300
           [Change 0 "User.js"; Change 400 "Post.js"] 700 1000 "Post.js"
           eq_refl ltac:(lia)).
Defined.

(** C3 (as stated) fails: a change at 400 ms arrives while the run started
    at 300 ms is in flight; its timeout is due at 700 ms, before the run
    settles at 1000 ms, and no run ever follows it. *)
Lemma follow_up_counterexample :
  ~ follow_up_guaranteed 300 [Change 0 "User.js"; Change 400 "Post.js"; Settle 1000].
Proof.
  intros H.
  destruct (H [Change 0 "User.js"] 400 "Post.js" [Settle 1000] eq_refl eq_refl)
    as (run & Hin & Hle).
  vm_compute in Hin. destruct Hin as [<- | []].
  cbn in Hle. lia.
Qed.

Lemma burst_triggers_one_run_witness :
  debounceDelay None None = 300 /\
  runs (finish (exec 300 (changes [(0, "User.js"); (100, "User.js"); (250, "Post.js")])
                  initial))
  = [(550, "Post.js")].
Proof.
  exact (burst_triggers_one_run None None initial (0, "User.js")
           [(100, "User.js"); (250, "Post.js")] eq_refl
           ltac:(cbn; lia)).
Defined.

(** C7 (as stated) fails: the watcher has a run in flight (started at
    300 ms) and no timeout pending; the burst at 400 ms and 500 ms has its
    timeout due at 800 ms, the callback returns at once, and no run is
    triggered for the burst. *)
Lemma burst_counterexample :
  let s := advance 350 (exec 300 [Change 0 "User.js"] initial) in
  timeoutId s = None /\
  burst_after 300 400 [(500, "Post.js")] /\
  runs (finish (exec 300 (changes [(400, "Post.js"); (500, "Post.js")]) s)) = runs s /\
  ~ one_run_per_burst 300 s (400, "Post.js") [(500, "Post.js")].
Proof.
  cbv zeta. split; [reflexivity|]. split; [cbn; lia|]. split; [reflexivity|].
  intros H. assert (Hb : burst_after 300 400 [(500, "Post.js")]) by (cbn; lia).
  specialize (H Hb). vm_compute in H. discriminate.
Qed.

(** * Further properties *)

(** ** Normalizer *)

Section NormalizerMore.

Lemma or_idempotent (a d : value) : or_ (or_ a d) d = or_ a d.
Proof.
  unfold or_. destruct (truthy a) eqn:Ea; [now rewrite Ea|].
  now destruct (truthy d).
Qed.

Lemma normalizeField_again (field nf : value) :
  normalizeField field = Returns nf -> normalizeField nf = Returns nf.
Proof.
  unfold normalizeField at 1. destruct (nullish field); [discriminate|].
  intros [= <-]. unfold normalizeField.
  cbn [nullish getp get String.eqb Ascii.eqb Bool.eqb].
  rewrite !or_idempotent.
  now destruct (is_not_false (getp field "required")).
Qed.

(** X1.  Normalizing a normalized field changes nothing. *)
Theorem normalizeField_idempotent (field nf : value) :
  normalizeField field = Returns nf -> normalizeField nf = Returns nf.
Proof. exact (normalizeField_again field nf). Qed.

Lemma normalizeField_idempotent_witness :
  normalizeField
    (VObj [ ("name", VStr "age"); ("type", VStr "number"); ("required", VBool true);
            ("isPrimary", VBool false); ("isArray", VBool false); ("arrayOf", VNull);
            ("isEnum", VBool false); ("enumValues", VNull);
            ("isReference", VBool false); ("referenceTo", VNull);
            ("defaultValue", VNull); ("description", VNull); ("nested", VNull) ])
  = Returns
    (VObj [ ("name", VStr "age"); ("type", VStr "number"); ("required", VBool true);
            ("isPrimary", VBool false); ("isArray", VBool false); ("arrayOf", VNull);
            ("isEnum", VBool false); ("enumValues", VNull);
            ("isReference", VBool false); ("referenceTo", VNull);
            ("defaultValue", VNull); ("description", VNull); ("nested", VNull) ]).
Proof.
  exact (normalizeField_idempotent (VObj [("name", VStr "age"); ("type", VStr "number")])
           _ eq_refl).
Defined.

Lemma normalizeField_nullish (f : value) :
  nullish f = true -> normalizeField f = Throws "TypeError".
Proof. intros H. unfold normalizeField. now rewrite H. Qed.

Lemma normalizeField_returns (f : value) :
  nullish f = false -> exists nf, normalizeField f = Returns nf.
Proof. intros H. unfold normalizeField. rewrite H. eexists; reflexivity. Qed.

Lemma mapM_normalizeField (l : list value) :
  (Forall (fun f => nullish f = false) l ->
   exists l', mapM normalizeField l = Returns l' /\
              Forall2 (fun f nf => normalizeField f = Returns nf) l l') /\
  (Exists (fun f => nullish f = true) l ->
   mapM normalizeField l = Throws "TypeError").
Proof.
  induction l as [|f l [IHok IHbad]]; split.
  - intros _. exists []. split; [reflexivity | constructor].
  - intros H. inversion H.
  - intros H. inversion H as [|? ? Hf Hl]; subst.
    destruct (IHok Hl) as (l' & Hm & Hall).
    destruct (normalizeField_returns f Hf) as [nf Hn].
    exists (nf :: l'). split; [|now constructor].
    cbn [mapM]. rewrite Hn. cbn. now rewrite Hm.
  - intros H. cbn [mapM].
    destruct (nullish f) eqn:Hf.
    + now rewrite (normalizeField_nullish f Hf).
    + inversion H as [? ? Hbad|? ? Hbad]; subst; [congruence|].
      destruct (normalizeField_returns f Hf) as [nf ->]. cbn.
      now rewrite (IHbad Hbad).
Qed.

(** X2.  On a model whose [fields] is an array, [normalizeModel] returns
    exactly when no element is [null] or [undefined], with as many fields
    as it was given, each the normalization of the one at its place; one
    [null] or [undefined] element makes the whole call throw. *)
Theorem normalizeModel_fields (model : value) (l : list value) :
  nullish model = false ->
  getp model "fields" = VArr l ->
  (Forall (fun f => nullish f = false) l ->
   exists nm l', normalizeModel model = Returns nm /\
                 getp nm "fields" = VArr l' /\
                 length l' = length l /\
                 Forall2 (fun f nf => normalizeField f = Returns nf) l l') /\
  (Exists (fun f => nullish f = true) l ->
   normalizeModel model = Throws "TypeError").
Proof.
  intros Hm Hf. unfold normalizeModel. rewrite Hm, Hf.
  change (or_ (VArr l) (VArr [])) with (VArr l).
  destruct (mapM_normalizeField l) as [Hok Hbad]. split.
  - intros Hall. destruct (Hok Hall) as (l' & Hmap & Hall2).
    rewrite Hmap. cbn. eexists _, l'. split; [reflexivity|].
    split; [reflexivity|]. split; [|exact Hall2].
    symmetry. exact (Forall2_length _ _ _ Hall2).
  - intros Hex. rewrite (Hbad Hex). reflexivity.
Qed.

Lemma normalizeModel_fields_witness :
  let model := VObj [ ("modelName", VStr "User");
                      ("fields", VArr [VObj [("name", VStr "age")]]) ] in
  (Forall (fun f => nullish f = false) [VObj [("name", VStr "age")]] ->
   exists nm l', normalizeModel model = Returns nm /\
                 getp nm "fields" = VArr l' /\
                 length l' = 1 /\
                 Forall2 (fun f nf => normalizeField f = Returns nf)
                   [VObj [("name", VStr "age")]] l') /\
  (Exists (fun f => nullish f = true) [VObj [("name", VStr "age")]] ->
   normalizeModel model = Throws "TypeError").
Proof.
  exact (normalizeModel_fields
           (VObj [ ("modelName", VStr "User");
                   ("fields", VArr [VObj [("name", VStr "age")]]) ])
           [VObj [("name", VStr "age")]] eq_refl eq_refl).
Defined.

Lemma mapM_normalizeField_fixed (l l' : list value) :
  mapM normalizeField l = Returns l' -> mapM normalizeField l' = Returns l'.
Proof.
  revert l'. induction l as [|f l IH]; intros l'; cbn [mapM].
  - now intros [= <-].
  - destruct (normalizeField f) as [nf| |] eqn:Hn; cbn; try discriminate.
    destruct (mapM normalizeField l) as [l0| |] eqn:Hl; cbn; try discriminate.
    intros [= <-]. cbn [mapM].
    rewrite (normalizeField_again _ _ Hn). cbn.
    now rewrite (IH l0 eq_refl).
Qed.

(** X3.  Normalizing a normalized model changes nothing: the defaults for
    [tableName], [source], [description] and [filePath] are stable and the
    fields are already normalized. *)
Theorem normalizeModel_idempotent (model nm : value) :
  normalizeModel model = Returns nm -> normalizeModel nm = Returns nm.
Proof.
  unfold normalizeModel at 1. destruct (nullish model); [discriminate|].
  destruct (or_ (getp model "fields") (VArr [])) as [| |b|n|s|n|l|o];
    cbn; try discriminate.
  - destruct (mapM normalizeField l) as [l'| |] eqn:Hl; cbn; try discriminate.
    intros [= <-]. unfold normalizeModel.
    cbn [nullish getp get String.eqb Ascii.eqb Bool.eqb].
    change (or_ (VArr l') (VArr [])) with (VArr l').
    cbv iota beta.
    rewrite (mapM_normalizeField_fixed _ _ Hl). cbn.
    now rewrite !or_idempotent.
  - destruct (get "map" o); cbn; discriminate.
Qed.

Lemma normalizeModel_idempotent_witness :
  exists nm,
    normalizeModel (VObj [("modelName", VStr "User")]) = Returns nm /\
    normalizeModel nm = Returns nm /\
    getp nm "tableName" = VStr "User" /\ getp nm "source" = VStr "unknown" /\
    getp nm "fields" = VArr [].
Proof.
  eexists. split; [reflexivity|].
  split; [exact (normalizeModel_idempotent (VObj [("modelName", VStr "User")]) _ eq_refl)|].
  repeat split.
Defined.

End NormalizerMore.

(** ** Parser *)

Section ParserMore.

Lemma parseField_name (pathInfo : value) (fieldName : string) (fieldDef : value) :
  get "name" (parseField pathInfo fieldName fieldDef) = VStr fieldName.
Proof. destruct fieldDef; reflexivity. Qed.

Lemma parsed_names (schemaObj schemaPaths : object) :
  map (get "name") (parseSchemaFields schemaObj schemaPaths) =
    map VStr (List.filter (fun k => negb (startsWith_underscore k))
                (map fst schemaObj)).
Proof.
  induction schemaObj as [|[k v] rest IH]; [reflexivity|].
  rewrite parseSchemaFields_cons. cbn [map fst List.filter].
  destruct (startsWith_underscore k); cbn [negb]; [exact IH|].
  cbn [map]. now rewrite parseField_name, IH.
Qed.

(** X4.  [parseSchemaFields] emits one field per key that does not start
    with an underscore, in the order of the keys, named after its key. *)
Theorem parseSchemaFields_names (schemaObj schemaPaths : object) :
  map (get "name") (parseSchemaFields schemaObj schemaPaths) =
    map VStr (List.filter (fun k => negb (startsWith_underscore k))
                (map fst schemaObj)).
Proof. exact (parsed_names schemaObj schemaPaths). Qed.

Lemma type_name_value (t : string) :
  In t extracted_types -> type_value (VStr t).
Proof. intros Ht. left. now exists t. Qed.

Lemma type_value_truthy (v : value) : type_value v -> truthy v = true.
Proof.
  intros [(t & -> & Ht)|H].
  - cbn in Ht. repeat (destruct Ht as [<-|Ht]; [reflexivity|]). destruct Ht.
  - cbn in H. repeat (destruct H as [<-|H]; [reflexivity|]). destruct H.
Qed.

(** The table lookup with its [|| 'any'] yields a type name of the table,
    an inherited member, or ['any']. *)
Lemma type_map_lookup_closed (typeName : string) :
  type_value (or_ (get_inherited typeName MONGOOSE_TYPE_MAP)
                  (VStr STANDARD_TYPES.ANY)).
Proof.
  unfold get_inherited, MONGOOSE_TYPE_MAP, Object_prototype. cbn [app get].
  repeat match goal with
         | |- context [if ?b then _ else _] =>
             destruct b;
             [first [ apply type_name_value; cbn; tauto
                    | right; cbn; tauto ]|]
         end.
  apply type_name_value; cbn; tauto.
Qed.

Lemma extracted_consistent (fieldDef : value) :
  consistent (extractFieldType fieldDef).
Proof.
  assert (Hbase : forall ty, type_value ty ->
            consistent [("type", ty); ("isReference", VBool false)]).
  { intros ty Hty. split; [exact Hty|].
    split; [left; split; reflexivity|].
    split; [left; split; reflexivity|].
    left; split; [right|]; reflexivity. }
  assert (Hany : type_value (VStr "any"))
    by (apply type_name_value; cbn; tauto).
  induction fieldDef as [| |b|n|s|n|l IH|o IH] using value_nested_ind.
  1-4: exact (Hbase _ Hany).
  1-2: apply Hbase, type_map_lookup_closed.
  - destruct l as [|first more].
    + split; [apply type_name_value; cbn; tauto|].
      split; [right; split; [reflexivity|]; split; [reflexivity|];
              apply type_name_value; cbn; tauto|].
      split; [left; split; reflexivity|].
      left; split; [left|]; reflexivity.
    + inversion IH as [|? ? Hfirst _]; subst.
      destruct Hfirst as (Hty & _ & _ & Href).
      cbn [extractFieldType].
      split; [apply type_name_value; cbn; tauto|].
      split; [right; split; [reflexivity|]; split; [reflexivity|]; exact Hty|].
      split; [left; split; reflexivity|].
      exact Href.
  - assert (Hinner : consistent (extractFieldType (get "type" o))).
    { apply (Forall_get (fun v => consistent (extractFieldType v)));
        [exact (Hbase _ Hany) | exact IH]. }
    destruct Hinner as (Hty & Harr & Henum & Href).
    rewrite extractFieldType_object.
    destruct (truthy (get "type" o)); cbv zeta.
    + destruct (truthy (get "enum" o)) eqn:He.
      { unfold consistent.
        repeat (rewrite get_assign_eq || rewrite get_assign_ne by discriminate). split; [exact Hty|]. split; [exact Harr|].
        split; [right; now split | exact Href]. }
      destruct (truthy (get "ref" o)) eqn:Hr.
      { unfold consistent.
        repeat (rewrite get_assign_eq || rewrite get_assign_ne by discriminate). split; [exact Hty|]. split; [exact Harr|].
        split; [exact Henum | right; now split]. }
      now repeat split.
    + destruct (truthy (get "enum" o)) eqn:He; [|exact (Hbase _ Hany)].
      split; [apply type_name_value; cbn; tauto|].
      split; [left; split; reflexivity|].
      split; [right; now split|].
      left; split; [left|]; reflexivity.
Qed.

(** X5.  What [extractFieldType] returns is consistent, for every input:
    [type] is one of eight type names or, for a marker named like a member
    of [Object.prototype], that member; [isArray] is either absent
    together with [arrayOf], or [true] with [type] ['array'] and [arrayOf]
    such a type value; [isEnum] is either absent together with
    [enumValues], or [true] with truthy [enumValues]; [isReference] is
    absent or [false] with no [referenceTo], or [true] with a truthy
    [referenceTo]. *)
Theorem extractFieldType_consistent (fieldDef : value) :
  consistent (extractFieldType fieldDef).
Proof. exact (extracted_consistent fieldDef). Qed.

Lemma is_not_false_bool (b : bool) : is_not_false (VBool b) = b.
Proof. now destruct b. Qed.

Lemma truthy_not_null (v : value) : truthy v = true -> v <> VNull.
Proof. now intros H ->. Qed.

Lemma parseField_gets (pathInfo : value) (fieldName : string) (fieldDef : value) :
  let typeInfo := extractFieldType fieldDef in
  let raw := parseField pathInfo fieldName fieldDef in
  get "isArray" raw = or_ (get "isArray" typeInfo) (VBool false) /\
  get "arrayOf" raw = or_ (get "arrayOf" typeInfo) VNull /\
  get "isReference" raw = or_ (get "isReference" typeInfo) (VBool false) /\
  get "referenceTo" raw = or_ (get "referenceTo" typeInfo) VNull /\
  get "isEnum" raw = or_ (get "isEnum" typeInfo) (VBool false) /\
  get "enumValues" raw = or_ (get "enumValues" typeInfo) VNull /\
  ((get "nested" raw = VNull /\ get "type" raw = get "type" typeInfo) \/
   ((exists l, get "nested" raw = VArr l) /\ get "type" raw = VStr "object")).
Proof.
  cbv zeta.
  do 6 (split; [destruct fieldDef; reflexivity|]).
  destruct fieldDef as [| |b|n|s|n|l|o]; try (left; split; reflexivity).
  cbn [parseField].
  destruct (negb (truthy (get "type" o)) && negb (truthy (get "enum" o))).
  - right. split; [eexists|]; reflexivity.
  - left. split; reflexivity.
Qed.

Lemma parsed_field_shape
  (pathInfo : value) (fieldName : string) (fieldDef : value) :
  let raw := parseField pathInfo fieldName fieldDef in
  get "name" raw = VStr fieldName /\
  type_value (get "type" raw) /\
  truthy (get "type" raw) = true /\
  is_bool (get "required" raw) /\
  is_bool (get "isArray" raw) /\
  is_bool (get "isEnum" raw) /\
  is_bool (get "isReference" raw) /\
  (get "isArray" raw = VBool false <-> get "arrayOf" raw = VNull) /\
  (get "isEnum" raw = VBool false <-> get "enumValues" raw = VNull) /\
  (get "isReference" raw = VBool false <-> get "referenceTo" raw = VNull) /\
  (get "nested" raw = VNull \/
   ((exists l, get "nested" raw = VArr l) /\ get "type" raw = VStr "object")).
Proof.
  cbv zeta.
  destruct (parseField_gets pathInfo fieldName fieldDef)
    as (Ha & Hao & Hr & Hrt & He & Hev & Hn).
  destruct (extracted_consistent fieldDef) as (Hty & Harr & Henum & Href).
  split; [apply parseField_name|].
  assert (Htype : type_value (get "type" (parseField pathInfo fieldName fieldDef))).
  { destruct Hn as [[_ ->]|[_ ->]]; [exact Hty|].
    apply type_name_value; cbn; tauto. }
  split; [exact Htype|].
  split; [exact (type_value_truthy _ Htype)|].
  split; [rewrite parseField_required; eexists; reflexivity|].
  rewrite Ha, Hao, He, Hev, Hr, Hrt.
  split; [destruct Harr as [[-> _]|[-> _]]; eexists; reflexivity|].
  split; [destruct Henum as [[-> _]|[-> _]]; eexists; reflexivity|].
  split; [destruct Href as [[[->| ->] _]|[-> _]]; eexists; reflexivity|].
  split.
  { destruct Harr as [[-> ->]|(-> & _ & Hat)]; [now split|].
    unfold or_ at 2. rewrite (type_value_truthy _ Hat).
    split; [discriminate | intros H; rewrite H in Hat;
                           now apply type_value_truthy in Hat]. }
  split.
  { destruct Henum as [[-> ->]|[-> Hv]]; [now split|].
    unfold or_ at 2. rewrite Hv.
    split; [discriminate | intros H; now apply truthy_not_null in Hv]. }
  split.
  { destruct Href as [[[->| ->] ->]|[-> Hv]]; [now split | now split |].
    unfold or_ at 2. rewrite Hv.
    split; [discriminate | intros H; now apply truthy_not_null in Hv]. }
  destruct Hn as [[-> _]|Hn]; [now left | now right].
Qed.

(** X6.  Every field [parseSchemaFields] emits is well formed: it carries
    its key as [name]; its [type] is truthy: one of the eight type names
    or, for a marker named like a member of [Object.prototype], that
    member; it carries booleans for
    [required], [isArray], [isEnum] and [isReference], and each flag is
    [false] exactly when its payload ([arrayOf], [enumValues],
    [referenceTo]) is [null]; [nested] is [null] or an array, and with an
    array the type is ['object']. *)
Theorem parseField_well_formed
  (pathInfo : value) (fieldName : string) (fieldDef : value) :
  let raw := parseField pathInfo fieldName fieldDef in
  get "name" raw = VStr fieldName /\
  type_value (get "type" raw) /\
  truthy (get "type" raw) = true /\
  is_bool (get "required" raw) /\
  is_bool (get "isArray" raw) /\
  is_bool (get "isEnum" raw) /\
  is_bool (get "isReference" raw) /\
  (get "isArray" raw = VBool false <-> get "arrayOf" raw = VNull) /\
  (get "isEnum" raw = VBool false <-> get "enumValues" raw = VNull) /\
  (get "isReference" raw = VBool false <-> get "referenceTo" raw = VNull) /\
  (get "nested" raw = VNull \/
   ((exists l, get "nested" raw = VArr l) /\ get "type" raw = VStr "object")).
Proof. exact (parsed_field_shape pathInfo fieldName fieldDef). Qed.

Lemma normalized_parsed_keys
  (pathInfo : value) (fieldName : string) (fieldDef : value) :
  let raw := parseField pathInfo fieldName fieldDef in
  exists nf,
    normalizeField (VObj raw) = Returns nf /\
    Forall (fun k => getp nf k = get k raw)
      [ "name"; "type"; "required"; "isArray"; "arrayOf"; "isEnum";
        "enumValues"; "isReference"; "referenceTo"; "nested" ] /\
    getp nf "isPrimary" = VBool false /\
    getp nf "description" = VNull /\
    getp nf "isUnique" = VUndefined /\
    getp nf "isEnumArray" = VUndefined.
Proof.
  cbv zeta.
  destruct (parseField_gets pathInfo fieldName fieldDef)
    as (Ha & Hao & Hr & Hrt & He & Hev & Hn).
  destruct (parsed_field_shape pathInfo fieldName fieldDef)
    as (_ & _ & Hty & _).
  set (raw := parseField pathInfo fieldName fieldDef) in *.
  assert (Hprim : get "isPrimary" raw = VUndefined)
    by (subst raw; destruct fieldDef; reflexivity).
  assert (Hdesc : get "description" raw = VUndefined)
    by (subst raw; destruct fieldDef; reflexivity).
  eexists. split; [reflexivity|]. cbn [getp get String.eqb Ascii.eqb Bool.eqb].
  split.
  { repeat constructor.
    - unfold or_. now rewrite Hty.
    - subst raw. now rewrite parseField_required, is_not_false_bool.
    - rewrite Ha. apply or_idempotent.
    - rewrite Hao. apply or_idempotent.
    - rewrite He. apply or_idempotent.
    - rewrite Hev. apply or_idempotent.
    - rewrite Hr. apply or_idempotent.
    - rewrite Hrt. apply or_idempotent.
    - destruct Hn as [[-> _]|[[l ->] _]]; reflexivity. }
  rewrite Hprim, Hdesc. repeat split.
Qed.

(** X7.  [normalizeField] takes a field emitted by the parser as it is:
    the ten properties the parser has already defaulted come out unchanged,
    [isPrimary] is [false] and [description] is [null]; the parser's
    [isUnique] and [isEnumArray] are not part of the normalized field. *)
Theorem normalizeField_keeps_parsed
  (pathInfo : value) (fieldName : string) (fieldDef : value) :
  let raw := parseField pathInfo fieldName fieldDef in
  exists nf,
    normalizeField (VObj raw) = Returns nf /\
    Forall (fun k => getp nf k = get k raw)
      [ "name"; "type"; "required"; "isArray"; "arrayOf"; "isEnum";
        "enumValues"; "isReference"; "referenceTo"; "nested" ] /\
    getp nf "isPrimary" = VBool false /\
    getp nf "description" = VNull /\
    getp nf "isUnique" = VUndefined /\
    getp nf "isEnumArray" = VUndefined.
Proof. exact (normalized_parsed_keys pathInfo fieldName fieldDef). Qed.

End ParserMore.

(** ** From extracted schemas to validated models *)

Section PipelineMore.

Lemma mapM_returns {A B : Type} (f : A -> outcome B) (R : A -> B -> Prop)
  (xs : list A) :
  (forall x, exists y, f x = Returns y /\ R x y) ->
  exists ys, mapM f xs = Returns ys /\ Forall2 R xs ys.
Proof.
  intros Hf. induction xs as [|x xs (ys & Hm & Hall)].
  - exists []. split; [reflexivity | constructor].
  - destruct (Hf x) as (y & Hy & HR). exists (y :: ys).
    split; [|now constructor]. cbn [mapM]. rewrite Hy. cbn. now rewrite Hm.
Qed.

Lemma check_fields_total (fields : list value) :
  Forall (fun f => nullish f = false) fields ->
  forall index, exists e, check_fields index fields = Returns e.
Proof.
  induction 1 as [|f fs Hf _ IH]; intros index; cbn [check_fields].
  - eexists; reflexivity.
  - unfold check_field. rewrite Hf. cbn.
    destruct (IH (S index)) as [e ->]. eexists; reflexivity.
Qed.

Lemma mapM_normalizeField_objects (raws : list object) :
  exists fields,
    mapM normalizeField (map VObj raws) = Returns fields /\
    Forall2 (fun raw nf => normalizeField (VObj raw) = Returns nf) raws fields.
Proof.
  induction raws as [|raw raws (fields & Hm & Hall)].
  - exists []. split; [reflexivity | constructor].
  - destruct (normalizeField_returns (VObj raw) eq_refl) as [nf Hnf].
    exists (nf :: fields). split; [|now constructor].
    cbn [map mapM]. rewrite Hnf. cbn. now rewrite Hm.
Qed.

(** What [parseExtracted] returns, spelled out. *)
Lemma parseExtracted_returns (filePath : string) (e : extracted) :
  exists fields,
    parseExtracted filePath e =
      Returns (VObj
        [ ("modelName", VStr (ex_modelName e));
          ("tableName", VStr (ex_modelName e));
          ("fields", VArr fields);
          ("description", VNull);
          ("source", VStr "mongoose");
          ("filePath", or_ (VStr filePath) VNull) ]) /\
    Forall2 (fun raw nf => normalizeField (VObj raw) = Returns nf)
      (parseSchemaFields (ex_obj e) (ex_paths e)) fields.
Proof.
  unfold parseExtracted, normalizeModel.
  cbn [nullish getp get String.eqb Ascii.eqb Bool.eqb].
  set (raws := parseSchemaFields (ex_obj e) (ex_paths e)).
  change (or_ (VArr (map VObj raws)) (VArr [])) with (VArr (map VObj raws)).
  cbv iota beta.
  destruct (mapM_normalizeField_objects raws) as (fields & Hm & Hall).
  exists fields. split; [|exact Hall].
  now rewrite Hm.
Qed.

Lemma normalized_parsed_ok (pathInfo : value) (fieldName : string)
  (fieldDef nf : value) :
  normalizeField (VObj (parseField pathInfo fieldName fieldDef)) = Returns nf ->
  nullish nf = false /\ (field_ok nf <-> fieldName <> "").
Proof.
  intros Hnf.
  destruct (normalized_parsed_keys pathInfo fieldName fieldDef)
    as (nf' & Hnf' & Hkeys & _).
  rewrite Hnf in Hnf'. injection Hnf' as <-.
  destruct (parsed_field_shape pathInfo fieldName fieldDef)
    as (Hname & _ & Hty & _).
  inversion Hkeys as [|? ? Hn Hrest]; subst.
  inversion Hrest as [|? ? Htype _]; subst.
  split.
  - unfold normalizeField in Hnf. cbn in Hnf. now injection Hnf as <-.
  - unfold field_ok. rewrite Hn, Htype, Hname, Hty.
    cbn [truthy]. destruct (String.eqb_spec fieldName ""); cbn; split; intros;
      easy.
Qed.

Lemma parsed_fields_ok (schemaObj schemaPaths : object) :
  forall fields,
    Forall2 (fun raw nf => normalizeField (VObj raw) = Returns nf)
      (parseSchemaFields schemaObj schemaPaths) fields ->
    Forall (fun f => nullish f = false) fields /\
    (Forall field_ok fields <-> ~ In "" (map fst schemaObj)).
Proof.
  induction schemaObj as [|[k v] rest IH]; intros fields.
  - cbn. intros H. inversion H; subst. split; [constructor|]. split; [tauto|constructor].
  - rewrite parseSchemaFields_cons. cbn [map fst In].
    destruct (startsWith_underscore k) eqn:Hk.
    + intros H. destruct (IH _ H) as [Hn Hok]. split; [exact Hn|].
      rewrite Hok. split; [|tauto].
      intros Hnot [Heq|Hin]; [subst k; discriminate | tauto].
    + intros H. inversion H as [|raw nf raws nfs Hnf Hrest]; subst.
      destruct (IH _ Hrest) as [Hn Hok].
      destruct (normalized_parsed_ok _ _ _ _ Hnf) as [Hnn Hfok].
      split; [now constructor|].
      split.
      * intros Hall. inversion Hall as [|? ? H1 H2]; subst.
        apply Hfok in H1. apply Hok in H2. intros [Heq|Hin]; [now subst | tauto].
      * intros Hnot. constructor; [apply Hfok | apply Hok]; tauto.
Qed.

(** X8.  Every model [parseMongooseModel] builds from an extracted schema
    goes through [validateSchema] without a throw, and is valid exactly
    when the model name is not empty and the schema has no key that is the
    empty string. *)
Theorem parsed_model_validates (filePath : string) (e : extracted) :
  exists m r,
    parseExtracted filePath e = Returns m /\
    validateSchema m = Returns r /\
    (valid r = true <->
     ex_modelName e <> "" /\ ~ In "" (map fst (ex_obj e))).
Proof.
  destruct (parseExtracted_returns filePath e) as (fields & Hm & Hall).
  destruct (parsed_fields_ok _ _ _ Hall) as [Hnn Hok].
  destruct (check_fields_total fields Hnn 0) as [e3 He3].
  assert (Hv : exists r, validateSchema
            (VObj [ ("modelName", VStr (ex_modelName e));
                    ("tableName", VStr (ex_modelName e));
                    ("fields", VArr fields); ("description", VNull);
                    ("source", VStr "mongoose");
                    ("filePath", or_ (VStr filePath) VNull) ]) = Returns r).
  { unfold validateSchema. cbn [nullish getp get String.eqb Ascii.eqb Bool.eqb].
    rewrite He3. eexists; reflexivity. }
  destruct Hv as [r Hr]. eexists _, r. split; [exact Hm|]. split; [exact Hr|].
  rewrite (validateSchema_valid_iff _ _ Hr).
  cbn [getp get String.eqb Ascii.eqb Bool.eqb truthy].
  split.
  - intros (Hname & l & [= <-] & Hl). split; [|now apply Hok].
    intros Heq. now rewrite Heq in Hname.
  - intros [Hname Hkeys]. split.
    + destruct (String.eqb_spec (ex_modelName e) ""); [contradiction | reflexivity].
    + exists fields. split; [reflexivity | now apply Hok].
Qed.

Lemma normalized_names (raws : list object) (fields : list value) :
  Forall2 (fun raw nf => normalizeField (VObj raw) = Returns nf) raws fields ->
  map (fun f => getp f "name") fields = map (get "name") raws.
Proof.
  induction 1 as [|raw nf raws fields Hnf _ IH]; [reflexivity|].
  cbn [map]. rewrite IH. f_equal.
  unfold normalizeField in Hnf. cbn in Hnf. now injection Hnf as <-.
Qed.

Lemma parsed_models (filePath : string)
  (extractedSchemas : option (list extracted)) :
  match extractedSchemas with
  | None | Some [] => parseMongooseModel filePath extractedSchemas = Returns None
  | Some es =>
      exists ms,
        parseMongooseModel filePath extractedSchemas = Returns (Some ms) /\
        Forall2
          (fun e m =>
             getp m "modelName" = VStr (ex_modelName e) /\
             getp m "tableName" = VStr (ex_modelName e) /\
             getp m "source" = VStr "mongoose" /\
             exists fields,
               getp m "fields" = VArr fields /\
               map (fun f => getp f "name") fields =
                 map VStr (List.filter (fun k => negb (startsWith_underscore k))
                             (map fst (ex_obj e))))
          es ms
  end.
Proof.
  destruct extractedSchemas as [[|e0 es]|]; try reflexivity.
  destruct (mapM_returns (parseExtracted filePath)
              (fun e m =>
                 getp m "modelName" = VStr (ex_modelName e) /\
                 getp m "tableName" = VStr (ex_modelName e) /\
                 getp m "source" = VStr "mongoose" /\
                 exists fields,
                   getp m "fields" = VArr fields /\
                   map (fun f => getp f "name") fields =
                     map VStr (List.filter (fun k => negb (startsWith_underscore k))
                                 (map fst (ex_obj e))))
              (e0 :: es)) as (ms & Hm & Hall).
  { intros e. destruct (parseExtracted_returns filePath e) as (fields & -> & Hf).
    eexists. split; [reflexivity|]. repeat split.
    exists fields. split; [reflexivity|].
    rewrite (normalized_names _ _ Hf). apply parsed_names. }
  exists ms. split; [|exact Hall].
  unfold parseMongooseModel. now rewrite Hm.
Qed.

Lemma mapM_throws {A B : Type} (f : A -> outcome B) (xs : list A)
  (bad : A) (rest : list A) (err : string) :
  Forall (fun x => exists y, f x = Returns y) xs ->
  f bad = Throws err ->
  mapM f (xs ++ bad :: rest) = Throws err.
Proof.
  intros Hxs Hbad. induction Hxs as [|x xs [y Hy] _ IH]; cbn [app mapM].
  - now rewrite Hbad.
  - rewrite Hy. cbn. now rewrite IH.
Qed.

(** On objects the loop of [Raw.parseSchemaFields] is the typed one. *)
Lemma parse_entries_objects (entries schemaPaths : object) :
  Raw.parse_entries entries (VObj schemaPaths) =
    Returns (parseSchemaFields entries schemaPaths).
Proof.
  induction entries as [|[k v] rest IH]; [reflexivity|].
  rewrite parseSchemaFields_cons. cbn [Raw.parse_entries].
  destruct (startsWith_underscore k); [exact IH|].
  cbn [Raw.member]. cbn. now rewrite IH.
Qed.

(** On a well-shaped element the callback is the typed one. *)
Lemma parseExtracted_described (filePath : string)
  (e : extracted) (raw : Raw.extracted) :
  describes e raw ->
  Raw.parseExtracted filePath raw = parseExtracted filePath e.
Proof.
  intros (Hname & Hobj & Hpaths).
  unfold Raw.parseExtracted, Raw.read, parseExtracted.
  destruct (Raw.schema raw) eqn:Hs; try discriminate.
  cbn [nullish]. cbn [getp] in Hobj, Hpaths |- *.
  rewrite Hobj, Hpaths, Hname. cbn.
  unfold Raw.parseSchemaFields. cbn [Raw.Object_entries]. cbn.
  now rewrite parse_entries_objects.
Qed.

Lemma parseExtracted_throws (filePath : string) (bad : Raw.extracted) :
  nullish (getp (Raw.schema bad) "obj") = true ->
  Raw.parseExtracted filePath bad = Throws "TypeError".
Proof.
  intros Hbad. unfold Raw.parseExtracted, Raw.read.
  destruct (nullish (Raw.schema bad)); [reflexivity|]. cbn.
  unfold Raw.parseSchemaFields.
  now destruct (getp (Raw.schema bad) "obj").
Qed.

Lemma mapM_described (filePath : string)
  (es : list extracted) (raws : list Raw.extracted) :
  Forall2 describes es raws ->
  mapM (Raw.parseExtracted filePath) raws = mapM (parseExtracted filePath) es.
Proof.
  induction 1 as [|e raw es raws He _ IH]; [reflexivity|].
  cbn [mapM]. now rewrite (parseExtracted_described filePath e raw He), IH.
Qed.

Lemma described_models (filePath : string)
  (es : list extracted) (raws : list Raw.extracted) :
  Forall2 describes es raws ->
  Raw.parseMongooseModel filePath (Some raws) =
    parseMongooseModel filePath (Some es).
Proof.
  intros H. pose proof (mapM_described filePath es raws H) as Hm.
  destruct H; [reflexivity|].
  unfold Raw.parseMongooseModel, parseMongooseModel. now rewrite Hm.
Qed.

Lemma described_return (filePath : string)
  (es : list extracted) (raws : list Raw.extracted) :
  Forall2 describes es raws ->
  Forall (fun raw => exists m, Raw.parseExtracted filePath raw = Returns m) raws.
Proof.
  induction 1 as [|e raw es raws He _ IH]; constructor; [|exact IH].
  rewrite (parseExtracted_described filePath e raw He).
  destruct (parseExtracted_returns filePath e) as (fields & -> & _).
  eexists; reflexivity.
Qed.

Lemma model_throws (filePath : string)
  (es : list extracted) (raws : list Raw.extracted)
  (bad : Raw.extracted) (rest : list Raw.extracted) :
  Forall2 describes es raws ->
  nullish (getp (Raw.schema bad) "obj") = true ->
  Raw.parseMongooseModel filePath (Some (raws ++ bad :: rest)) =
    Throws "TypeError".
Proof.
  intros Hd Hbad.
  assert (Hm : mapM (Raw.parseExtracted filePath) (raws ++ bad :: rest) =
               Throws "TypeError").
  { apply mapM_throws;
      [exact (described_return filePath es raws Hd)
      | exact (parseExtracted_throws filePath bad Hbad)]. }
  unfold Raw.parseMongooseModel.
  destruct (raws ++ bad :: rest) eqn:Hl; [now destruct raws|].
  now rewrite Hm.
Qed.

(** X9.  [parseMongooseModel] gives [null] for no extraction or an empty
    one.  When every extracted element is well shaped (a string as model
    name, objects as [schema.obj] and [schema.paths]) it returns one model
    per element, in order: named after it, with [tableName] equal to the
    model name, [source] ['mongoose'], and one field per schema key that
    does not start with an underscore, in the order of the keys.  When an
    element follows whose [schema.obj] is [null] or [undefined],
    [Object.entries] throws a [TypeError], which nothing catches: the call
    throws and the models already built are lost. *)
Theorem parseMongooseModel_returns (filePath : string)
  (es : list extracted) (raws : list Raw.extracted)
  (bad : Raw.extracted) (rest : list Raw.extracted) :
  Forall2 describes es raws ->
  raws <> [] ->
  nullish (getp (Raw.schema bad) "obj") = true ->
  Raw.parseMongooseModel filePath None = Returns None /\
  Raw.parseMongooseModel filePath (Some []) = Returns None /\
  (exists ms,
     Raw.parseMongooseModel filePath (Some raws) = Returns (Some ms) /\
     Forall2
       (fun e m =>
          getp m "modelName" = VStr (ex_modelName e) /\
          getp m "tableName" = VStr (ex_modelName e) /\
          getp m "source" = VStr "mongoose" /\
          exists fields,
            getp m "fields" = VArr fields /\
            map (fun f => getp f "name") fields =
              map VStr (List.filter (fun k => negb (startsWith_underscore k))
                          (map fst (ex_obj e))))
       es ms) /\
  Raw.parseMongooseModel filePath (Some (raws ++ bad :: rest)) =
    Throws "TypeError".
Proof.
  intros Hd Hne Hbad.
  split; [reflexivity|]. split; [reflexivity|].
  split; [|exact (model_throws filePath es raws bad rest Hd Hbad)].
  rewrite (described_models filePath es raws Hd).
  pose proof (parsed_models filePath (Some es)) as Hp.
  destruct Hd as [|e raw es raws]; [contradiction|]. exact Hp.
Qed.

Lemma parseMongooseModel_returns_witness :
  let user :=
    Raw.mkExtracted (VStr "User")
      (VObj [ ("obj", VObj [ ("email", VFun "String"); ("_id", VFun "ObjectId") ]);
              ("paths", VObj []) ]) in
  let bad := Raw.mkExtracted (VStr "y") (VStr "x") in
  Raw.parseMongooseModel "user.js" None = Returns None /\
  Raw.parseMongooseModel "user.js" (Some []) = Returns None /\
  (exists ms,
     Raw.parseMongooseModel "user.js" (Some [user]) = Returns (Some ms) /\
     Forall2
       (fun e m =>
          getp m "modelName" = VStr (ex_modelName e) /\
          getp m "tableName" = VStr (ex_modelName e) /\
          getp m "source" = VStr "mongoose" /\
          exists fields,
            getp m "fields" = VArr fields /\
            map (fun f => getp f "name") fields =
              map VStr (List.filter (fun k => negb (startsWith_underscore k))
                          (map fst (ex_obj e))))
       [ mkExtracted "User"
           [ ("email", VFun "String"); ("_id", VFun "ObjectId") ] [] ] ms) /\
  Raw.parseMongooseModel "user.js" (Some ([user] ++ bad :: [])) =
    Throws "TypeError".
Proof.
  cbv zeta.
  apply (parseMongooseModel_returns "user.js"
           [ mkExtracted "User"
               [ ("email", VFun "String"); ("_id", VFun "ObjectId") ] [] ]
           [ Raw.mkExtracted (VStr "User")
               (VObj [ ("obj", VObj [ ("email", VFun "String");
                                      ("_id", VFun "ObjectId") ]);
                       ("paths", VObj []) ]) ]
           (Raw.mkExtracted (VStr "y") (VStr "x")) []);
    [repeat constructor | discriminate | reflexivity].
Defined.

Lemma described_list (raws : list Raw.extracted) :
  Forall well_shaped raws -> exists es, Forall2 describes es raws.
Proof.
  induction 1 as [|raw raws [e He] _ [es Hes]].
  - exists []. constructor.
  - exists (e :: es). now constructor.
Qed.

Lemma described_names (es : list extracted) (raws : list Raw.extracted) :
  Forall2 describes es raws ->
  map (fun e => VStr (ex_modelName e)) es = map Raw.modelName raws.
Proof.
  induction 1 as [|e raw es raws (Hn & _) _ IH]; [reflexivity|].
  cbn [map]. now rewrite Hn, IH.
Qed.

Lemma parse_files_returns
  (files : list (string * option (list Raw.extracted))) :
  Forall (fun f => match snd f with
                   | Some raws => Forall well_shaped raws
                   | None => True
                   end) files ->
  forall models,
  exists ms,
    Raw.parse_files files models = Returns (models ++ ms) /\
    map (fun m => getp m "modelName") ms =
      flat_map (fun f => match snd f with
                         | Some raws => map Raw.modelName raws
                         | None => []
                         end) files.
Proof.
  induction 1 as [|[file ex] files Hex _ IH]; intros models;
    cbn [Raw.parse_files flat_map snd].
  - exists []. split; [now rewrite app_nil_r | reflexivity].
  - destruct ex as [raws|]; [|cbn; exact (IH models)].
    destruct (described_list raws Hex) as [es Hes].
    rewrite (described_models file es raws Hes), <- (described_names es raws Hes).
    pose proof (parsed_models file (Some es)) as Hp.
    destruct es as [|e0 es].
    + rewrite Hp. cbn. exact (IH models).
    + destruct Hp as (ms & -> & Hall). cbn.
      assert (Hn : map (fun m => getp m "modelName") ms =
                   map (fun e => VStr (ex_modelName e)) (e0 :: es)).
      { clear -Hall. induction Hall as [|e m ? ? (Hn & _) _ IHa]; [reflexivity|].
        cbn [map]. now rewrite Hn, IHa. }
      destruct (IH (models ++ ms)) as (ms' & -> & Hnames).
      exists (ms ++ ms'). split; [now rewrite app_assoc|].
      now rewrite map_app, Hnames, Hn.
Qed.

Lemma parse_files_throws
  (files : list (string * option (list Raw.extracted)))
  (bad_file : string) (bad : Raw.extracted) (more : list Raw.extracted)
  (rest : list (string * option (list Raw.extracted))) :
  Forall (fun f => match snd f with
                   | Some raws => Forall well_shaped raws
                   | None => True
                   end) files ->
  nullish (getp (Raw.schema bad) "obj") = true ->
  forall models,
    Raw.parse_files (files ++ (bad_file, Some (bad :: more)) :: rest) models =
      Throws "TypeError".
Proof.
  intros Hfiles Hbad.
  induction Hfiles as [|[file ex] files Hex _ IH]; intros models;
    cbn [app Raw.parse_files].
  - assert (Hnone : Forall2 describes [] []) by constructor.
    pose proof (model_throws bad_file [] [] bad more Hnone Hbad) as Hm.
    cbn [app] in Hm. now rewrite Hm.
  - destruct ex as [raws|]; [|cbn; exact (IH models)].
    cbn [snd] in Hex. destruct (described_list raws Hex) as [es Hes].
    rewrite (described_models file es raws Hes).
    pose proof (parsed_models file (Some es)) as Hp.
    destruct es as [|e0 es].
    + rewrite Hp. cbn. exact (IH models).
    + destruct Hp as (ms & -> & _). cbn. exact (IH (models ++ ms)).
Qed.

(** X10.  The loop of [parseMongooseModels]: when every extracted element
    is well shaped, it returns; a file whose extraction gave nothing
    contributes no model and does not stop the others, and the models of
    the remaining files come out in file order, each file's in the order
    of its elements.  A file with an element whose [schema.obj] is [null]
    or [undefined] is not isolated: the [TypeError] of
    [parseMongooseModel] ends the loop, and the models of the files before
    it are lost. *)
Theorem parseMongooseModels_isolates
  (files : list (string * option (list Raw.extracted)))
  (bad_file : string) (bad : Raw.extracted) (more : list Raw.extracted)
  (rest : list (string * option (list Raw.extracted))) :
  Forall (fun f => match snd f with
                   | Some raws => Forall well_shaped raws
                   | None => True
                   end) files ->
  nullish (getp (Raw.schema bad) "obj") = true ->
  (exists ms,
     Raw.parseMongooseModels files = Returns ms /\
     map (fun m => getp m "modelName") ms =
       flat_map (fun f => match snd f with
                          | Some raws => map Raw.modelName raws
                          | None => []
                          end) files) /\
  Raw.parseMongooseModels (files ++ (bad_file, Some (bad :: more)) :: rest) =
    Throws "TypeError".
Proof.
  intros Hfiles Hbad. split.
  - exact (parse_files_returns files Hfiles []).
  - exact (parse_files_throws files bad_file bad more rest Hfiles Hbad []).
Qed.

Lemma parseMongooseModels_isolates_witness :
  let user :=
    Raw.mkExtracted (VStr "User")
      (VObj [ ("obj", VObj [ ("email", VFun "String") ]); ("paths", VObj []) ]) in
  let post :=
    Raw.mkExtracted (VStr "Post")
      (VObj [ ("obj", VObj [ ("title", VFun "String") ]); ("paths", VObj []) ]) in
  let files :=
    [ ("user.js", Some [user]); ("util.js", None); ("post.js", Some [post]) ] in
  (exists ms,
     Raw.parseMongooseModels files = Returns ms /\
     map (fun m => getp m "modelName") ms =
       flat_map (fun f => match snd f with
                          | Some raws => map Raw.modelName raws
                          | None => []
                          end) files) /\
  Raw.parseMongooseModels
    (files ++ ("bad.js", Some (Raw.mkExtracted (VStr "y") (VStr "x") :: [])) :: []) =
    Throws "TypeError".
Proof.
  cbv zeta.
  apply (parseMongooseModels_isolates
           [ ("user.js",
              Some [ Raw.mkExtracted (VStr "User")
                       (VObj [ ("obj", VObj [ ("email", VFun "String") ]);
                               ("paths", VObj []) ]) ]);
             ("util.js", None);
             ("post.js",
              Some [ Raw.mkExtracted (VStr "Post")
                       (VObj [ ("obj", VObj [ ("title", VFun "String") ]);
                               ("paths", VObj []) ]) ]) ]
           "bad.js" (Raw.mkExtracted (VStr "y") (VStr "x")) [] []);
    [|reflexivity].
  repeat constructor.
  - exists (mkExtracted "User" [ ("email", VFun "String") ] []).
    repeat split.
  - exists (mkExtracted "Post" [ ("title", VFun "String") ] []).
    repeat split.
Defined.

End PipelineMore.

(** ** Safe writer, continued *)

Section WriterMore.

Lemma path_siblings (path : string) :
  path +:+ ".backup" <> path +:+ ".tmp" /\
  path +:+ ".backup" <> path /\ path +:+ ".tmp" <> path.
Proof.
  split; [intros H; apply append_inj_l in H; discriminate|].
  split; apply append_ne_self; discriminate.
Qed.

Lemma writeFileSafe_other_files (path content : string) (shouldBackup : bool)
  (ft : faults) (fs : FS) (other : string) (r : write_result) (fs' : FS) :
  writeFileSafe path content shouldBackup ft fs = (Resolved r, fs') ->
  other <> path -> other <> path +:+ ".tmp" -> other <> path +:+ ".backup" ->
  fs' !! other = fs !! other.
Proof.
  intros Hw Ho Hot Hob.
  destruct (path_siblings path) as (Hbt & Hbp & Htp).
  revert Hw. io_unfold. cbv beta.
  destruct shouldBackup, (fs !! path) as [prior|] eqn:Hp;
    io_cases ft Hp; intros [= <- <-]; map_lookups; reflexivity.
Qed.

(** X11.  [writeFileSafe] touches nothing but the destination, its [.tmp]
    sibling and its [.backup] sibling: every other file is after the call
    what it was before, whatever is refused. *)
Theorem writeFileSafe_frame (path content : string) (shouldBackup : bool)
  (ft : faults) (fs : FS) (other : string) (r : write_result) (fs' : FS) :
  writeFileSafe path content shouldBackup ft fs = (Resolved r, fs') ->
  other <> path -> other <> path +:+ ".tmp" -> other <> path +:+ ".backup" ->
  fs' !! other = fs !! other.
Proof. exact (writeFileSafe_other_files path content shouldBackup ft fs other r fs'). Qed.

Lemma writeFileSafe_frame_witness :
  let fs : FS := {["types/User.ts" := "old"; "types/Post.ts" := "post"]} in
  snd (writeFileSafe "types/User.ts" "new" true no_faults fs) !! "types/Post.ts"
  = fs !! "types/Post.ts".
Proof.
  exact (writeFileSafe_frame "types/User.ts" "new" true no_faults
           {["types/User.ts" := "old"; "types/Post.ts" := "post"]}
           "types/Post.ts"
           {| success := true; filePath := "types/User.ts";
              backupCreated := Some true; error := None |}
           _ eq_refl
           ltac:(discriminate) ltac:(discriminate) ltac:(discriminate)).
Defined.

(** X12.  When the directory cannot be ensured or is not writable, the
    call resolves with a failure and no file has been touched; for the
    missing permission the error is 'No write permission for <path>'. *)
Theorem writeFileSafe_refused_early (path content : string) (shouldBackup : bool)
  (ft : faults) (fs : FS) :
  ft CallEnsureDir = true \/ ft CallAccess = true ->
  exists e,
    writeFileSafe path content shouldBackup ft fs =
      (Resolved {| success := false; filePath := path;
                   backupCreated := None; error := Some e |}, fs) /\
    (ft CallEnsureDir = false -> e = "No write permission for " +:+ path).
Proof.
  intros H. io_unfold. cbv beta.
  destruct (ft CallEnsureDir) eqn:H1; cbn.
  - eexists. split; [reflexivity | discriminate].
  - destruct H as [H|H]; [discriminate|]. rewrite H. cbn.
    eexists. split; reflexivity.
Qed.

Lemma writeFileSafe_refused_early_witness :
  exists e,
    writeFileSafe "types/User.ts" "new" true
      (fun c => match c with CallAccess => true | _ => false end)
      {["types/User.ts" := "old"]} =
      (Resolved {| success := false; filePath := "types/User.ts";
                   backupCreated := None; error := Some e |},
       {["types/User.ts" := "old"]}) /\
    (false = false -> e = "No write permission for types/User.ts").
Proof.
  exact (writeFileSafe_refused_early "types/User.ts" "new" true
           (fun c => match c with CallAccess => true | _ => false end)
           {["types/User.ts" := "old"]} (or_intror eq_refl)).
Defined.

(** X13.  A successful [writeFileSafe] leaves the new content at the
    destination and no [.tmp] sibling, whatever was there before;
    [backupCreated] tells whether backups were on and the destination
    existed, and then no [.backup] sibling is left either. *)
Theorem writeFileSafe_success (path content : string) (shouldBackup : bool)
  (ft : faults) (fs : FS) (r : write_result) (fs' : FS) :
  writeFileSafe path content shouldBackup ft fs = (Resolved r, fs') ->
  success r = true ->
  fs' !! path = Some content /\
  fs' !! (path +:+ ".tmp") = None /\
  error r = None /\
  backupCreated r = Some (shouldBackup && bool_decide (is_Some (fs !! path))) /\
  (backupCreated r = Some true -> fs' !! (path +:+ ".backup") = None).
Proof.
  intros Hw.
  destruct (path_siblings path) as (Hbt & Hbp & Htp).
  assert (Htb : path +:+ ".tmp" <> path +:+ ".backup") by congruence.
  assert (Hpt : path <> path +:+ ".tmp") by congruence.
  assert (Hpb : path <> path +:+ ".backup") by congruence.
  revert Hw. io_unfold. cbv beta.
  destruct shouldBackup, (fs !! path) as [prior|] eqn:Hp;
    io_cases ft Hp; intros [= <- <-]; cbn; try discriminate; intros _;
    map_lookups; repeat split; try reflexivity; try discriminate.
Qed.

Lemma writeFileSafe_success_witness :
  let fs : FS := {["types/User.ts" := "old"; "types/User.ts.tmp" := "stale"]} in
  let fs' := snd (writeFileSafe "types/User.ts" "new" true no_faults fs) in
  fs' !! "types/User.ts" = Some "new" /\
  fs' !! "types/User.ts.tmp" = None /\
  (None : option string) = None /\
  Some true = Some (true && bool_decide (is_Some (fs !! "types/User.ts"))) /\
  (Some true = Some true -> fs' !! "types/User.ts.backup" = None).
Proof.
  exact (writeFileSafe_success "types/User.ts" "new" true no_faults
           {["types/User.ts" := "old"; "types/User.ts.tmp" := "stale"]}
           {| success := true; filePath := "types/User.ts";
              backupCreated := Some true; error := None |}
           _ eq_refl eq_refl).
Defined.

(** X14.  A failed [writeFileSafe] leaves the destination as it was,
    except in one case: the rename went through and then both the removal
    of the backup and the restoring copy were refused, and the destination
    holds the new content.  Without a backup (backups off, or no file at
    the destination) a failure always leaves the destination as it was. *)
Theorem writeFileSafe_failure (path content : string) (shouldBackup : bool)
  (ft : faults) (fs : FS) (r : write_result) (fs' : FS) :
  writeFileSafe path content shouldBackup ft fs = (Resolved r, fs') ->
  success r = false ->
  (fs' !! path = fs !! path \/
   (ft CallRemoveBackup = true /\ ft CallCopyFromBackup = true /\
    fs' !! path = Some content)) /\
  (shouldBackup = false \/ fs !! path = None -> fs' !! path = fs !! path).
Proof.
  intros Hw.
  destruct (path_siblings path) as (Hbt & Hbp & Htp).
  assert (Hpt : path <> path +:+ ".tmp") by congruence.
  assert (Hpb : path <> path +:+ ".backup") by congruence.
  revert Hw. io_unfold. cbv beta.
  destruct shouldBackup, (fs !! path) as [prior|] eqn:Hp;
    io_cases ft Hp; intros [= <- <-]; cbn; try discriminate; intros _;
    map_lookups; rewrite ?Hp;
    (split; [first [left; reflexivity | right; repeat split; reflexivity]
            | first [intros _; reflexivity | intros [?|?]; discriminate]]).
Qed.

Lemma writeFileSafe_failure_witness :
  let ft : faults := fun c => match c with CallRename => true | _ => false end in
  let fs : FS := {["types/User.ts" := "old"]} in
  let fs' := snd (writeFileSafe "types/User.ts" "new" false ft fs) in
  (fs' !! "types/User.ts" = fs !! "types/User.ts" \/
   (ft CallRemoveBackup = true /\ ft CallCopyFromBackup = true /\
    fs' !! "types/User.ts" = Some "new")) /\
  (false = false \/ fs !! "types/User.ts" = None ->
   fs' !! "types/User.ts" = fs !! "types/User.ts").
Proof.
  exact (writeFileSafe_failure "types/User.ts" "new" false
           (fun c => match c with CallRename => true | _ => false end)
           {["types/User.ts" := "old"]}
           {| success := false; filePath := "types/User.ts";
              backupCreated := None; error := Some "EIO" |}
           _ eq_refl eq_refl).
Defined.

(** X15.  When the rename is refused, the temporary file the content was
    written to stays on disk: the call fails, the destination is as it was,
    and the [.tmp] sibling holds the new content. *)
Theorem writeFileSafe_leaves_temp (path content : string) (shouldBackup : bool)
  (ft : faults) (fs : FS) :
  ft CallEnsureDir = false -> ft CallAccess = false ->
  ft CallCopyToBackup = false -> ft CallWriteTemp = false ->
  ft CallRename = true ->
  exists r fs',
    writeFileSafe path content shouldBackup ft fs = (Resolved r, fs') /\
    success r = false /\
    fs' !! (path +:+ ".tmp") = Some content /\
    fs' !! path = fs !! path.
Proof.
  intros H1 H2 H3 H4 H5.
  destruct (path_siblings path) as (Hbt & Hbp & Htp).
  assert (Htb : path +:+ ".tmp" <> path +:+ ".backup") by congruence.
  assert (Hpt : path <> path +:+ ".tmp") by congruence.
  assert (Hpb : path <> path +:+ ".backup") by congruence.
  io_unfold. cbv beta. rewrite H1. cbn. rewrite H2. cbn.
  destruct shouldBackup, (fs !! path) as [prior|] eqn:Hp;
    repeat (rewrite ?Hp, ?H3, ?H4, ?H5; map_lookups; cbn);
    io_cases ft Hp;
    (eexists _, _; split; [reflexivity|]; cbn; split; [reflexivity|];
     map_lookups; rewrite ?Hp; split; reflexivity).
Qed.

Lemma writeFileSafe_leaves_temp_witness :
  exists r fs',
    writeFileSafe "types/User.ts" "new" true
      (fun c => match c with CallRename => true | _ => false end)
      {["types/User.ts" := "old"]} = (Resolved r, fs') /\
    success r = false /\
    fs' !! "types/User.ts.tmp" = Some "new" /\
    fs' !! "types/User.ts" = ({["types/User.ts" := "old"]} : FS) !! "types/User.ts".
Proof.
  exact (writeFileSafe_leaves_temp "types/User.ts" "new" true
           (fun c => match c with CallRename => true | _ => false end)
           {["types/User.ts" := "old"]} eq_refl eq_refl eq_refl eq_refl eq_refl).
Defined.

Lemma write_each_no_faults (shouldBackup : bool) (schedule : nat -> faults) :
  (forall i c, schedule i c = false) ->
  forall (files : list file) (i : nat) (fs : FS),
    independent_paths files ->
    exists rs fs',
      write_each files shouldBackup schedule i fs = (Resolved rs, fs') /\
      forallb success rs = true /\
      (forall f, In f files -> fs' !! path f = Some (content f)) /\
      (forall q, (forall f, In f files ->
                    q <> path f /\ q <> path f +:+ ".tmp" /\
                    q <> path f +:+ ".backup") ->
                 fs' !! q = fs !! q).
Proof.
  intros Hok. induction files as [|f rest IH]; intros i fs [Hnd Hind];
    cbn [write_each].
  - exists [], fs. split; [reflexivity|]. split; [reflexivity|].
    split; [intros f [] | reflexivity].
  - destruct (writeFileSafe_no_faults (path f) (content f) shouldBackup
                (schedule i) fs (Hok i)) as (r & fs1 & Hw & Hs & Hc).
    rewrite Hw.
    assert (Hrest : independent_paths rest).
    { split; [now inversion Hnd|].
      intros g h Hg Hh. apply Hind; now right. }
    destruct (IH (S i) fs1 Hrest) as (rs & fs2 & -> & Hall & Hcont & Hframe).
    exists (r :: rs), fs2. split; [reflexivity|].
    split; [cbn; now rewrite Hs, Hall|].
    split.
    + intros g [<-|Hg]; [|now apply Hcont].
      rewrite Hframe; [exact Hc|].
      intros g Hg. split.
      * intros Heq. inversion Hnd as [|? ? Hnotin _]; subst.
        apply Hnotin. apply list_elem_of_In. rewrite Heq. now apply in_map.
      * apply Hind; [now left | now right].
    + intros q Hq. rewrite Hframe by (intros g Hg; apply Hq; now right).
      destruct (Hq f (or_introl eq_refl)) as (H1 & H2 & H3).
      exact (writeFileSafe_other_files _ _ _ _ _ q r fs1 Hw H1 H2 H3).
Qed.

(** X16.  A batch none of whose calls is refused, over files that cannot
    disturb each other, succeeds as a whole and leaves every file of the
    batch with its content, while files outside the batch (and not a
    [.tmp] or [.backup] sibling of one in it) keep theirs. *)
Theorem writeMultipleFiles_writes_all (files : list file) (shouldBackup : bool)
  (schedule : nat -> faults) (fs : FS) :
  (forall i c, schedule i c = false) ->
  independent_paths files ->
  exists b fs',
    writeMultipleFiles files shouldBackup schedule fs = (Resolved b, fs') /\
    b_success b = true /\ failed b = 0%Z /\
    (forall f, In f files -> fs' !! path f = Some (content f)) /\
    (forall q, (forall f, In f files ->
                  q <> path f /\ q <> path f +:+ ".tmp" /\
                  q <> path f +:+ ".backup") ->
               fs' !! q = fs !! q).
Proof.
  intros Hok Hind. unfold writeMultipleFiles.
  destruct (write_each_no_faults shouldBackup schedule Hok files 0 fs Hind)
    as (rs & fs' & Hw & Hall & Hcont & Hframe).
  pose proof (write_each_spec shouldBackup schedule files 0 fs)
    as (rs0 & fs0 & Hw0 & Hpaths & _).
  rewrite Hw in Hw0. injection Hw0 as <- <-.
  rewrite Hw. eexists _, fs'. split; [reflexivity|]. cbn.
  split; [exact Hall|].
  split; [|now split].
  destruct (success_count rs) as [_ Hiff]. apply Hiff in Hall.
  assert (Hlen : length rs = length files).
  { rewrite <- (length_map filePath rs), Hpaths. apply length_map. }
  lia.
Qed.

Lemma writeMultipleFiles_writes_all_witness :
  let files := [ mkFile "types/User.ts" "u"; mkFile "types/Post.ts" "p" ] in
  exists b fs',
    writeMultipleFiles files true (fun _ => no_faults) {["README.md" := "doc"]}
      = (Resolved b, fs') /\
    b_success b = true /\ failed b = 0%Z /\
    (forall f, In f files -> fs' !! path f = Some (content f)) /\
    (forall q, (forall f, In f files ->
                  q <> path f /\ q <> path f +:+ ".tmp" /\
                  q <> path f +:+ ".backup") ->
               fs' !! q = ({["README.md" := "doc"]} : FS) !! q).
Proof.
  refine (writeMultipleFiles_writes_all
            [ mkFile "types/User.ts" "u"; mkFile "types/Post.ts" "p" ] true
            (fun _ => no_faults) {["README.md" := "doc"]} (fun _ _ => eq_refl) _).
  split.
  - apply (bool_decide_unpack _). vm_compute. exact I.
  - intros f g [<-|[<-|[]]] [<-|[<-|[]]]; split; discriminate.
Defined.

End WriterMore.

(** ** Cleaning generated files *)

Section CleanerMore.

Lemma remove_each_keeps (refused : string -> bool) (tsFiles : list string) :
  forall entries s entries',
    remove_each refused tsFiles entries = (s, entries') ->
    (forall n, In n entries' -> In n entries) /\
    (forall n, In n entries -> ~ In n tsFiles -> In n entries').
Proof.
  induction tsFiles as [|file rest IH]; intros entries s entries'; cbn [remove_each].
  - intros [= _ <-]. split; auto.
  - destruct (refused file).
    + intros [= _ <-]. split; auto.
    + intros H. destruct (IH _ _ _ H) as [Hsub Hkeep]. split.
      * intros n Hn. apply Hsub in Hn. unfold remove_entry in Hn.
        apply list_elem_of_In, list_elem_of_filter in Hn as [_ Hn].
        now apply list_elem_of_In.
      * intros n Hn Hnot. apply Hkeep.
        -- unfold remove_entry. apply list_elem_of_In, list_elem_of_filter.
           split; [|now apply list_elem_of_In].
           intros ->. apply Hnot. now left.
        -- intros Hin. apply Hnot. now right.
Qed.

Lemma remove_each_resolved (refused : string -> bool) (tsFiles : list string) :
  forall entries,
    (forall n, In n tsFiles -> refused n = false) ->
    remove_each refused tsFiles entries =
      (Resolved tt, filter (fun n => n ∉ tsFiles) entries).
Proof.
  induction tsFiles as [|file rest IH]; intros entries Hok; cbn [remove_each].
  - f_equal. induction entries as [|e entries IHe]; [reflexivity|].
    rewrite filter_cons. case_decide as H; [now rewrite <- IHe|].
    exfalso. exact (not_elem_of_nil e H).
  - rewrite (Hok file (or_introl eq_refl)).
    rewrite IH by (intros n Hn; apply Hok; now right).
    f_equal. unfold remove_entry. rewrite list_filter_filter.
    apply list_filter_iff. intros n. rewrite not_elem_of_cons. tauto.
Qed.

Lemma remove_each_rejected (refused : string -> bool) (tsFiles : list string) :
  forall entries n,
    In n tsFiles -> refused n = true ->
    exists e entries', remove_each refused tsFiles entries = (Rejected e, entries').
Proof.
  induction tsFiles as [|file rest IH]; intros entries n [].
  - subst file. intros Hr. cbn [remove_each]. rewrite Hr. eexists _, _; reflexivity.
  - intros Hr. cbn [remove_each]. destruct (refused file); [eexists _, _; reflexivity|].
    now apply (IH _ n).
Qed.

Lemma filter_not_ts (entries all : list string) :
  (forall n, In n entries -> In n all) ->
  filter (fun n => n ∉ List.filter (endsWith ".ts") all) entries =
    List.filter (fun n => negb (endsWith ".ts" n)) entries.
Proof.
  induction entries as [|e entries IH]; intros Hsub; [reflexivity|].
  rewrite filter_cons. cbn [List.filter].
  rewrite IH by (intros n Hn; apply Hsub; now right).
  destruct (endsWith ".ts" e) eqn:He; cbn [negb]; case_decide as H; try reflexivity.
  - exfalso. apply H. apply list_elem_of_In, filter_In.
    split; [apply Hsub; now left | exact He].
  - apply list_elem_of_In, filter_In in H as [_ H]. congruence.
Qed.

(** X17.  Whatever is refused and whether or not it is a dry run,
    [cleanGeneratedFiles] removes nothing but entries whose name ends in
    '.ts': every other entry of the directory is still there afterwards and
    nothing is added; a dry run leaves the directory as it is and lists
    exactly the '.ts' entries. *)
Theorem cleanGeneratedFiles_only_ts (dryRun readdir_refused : bool)
  (refused : string -> bool) (entries : list string) :
  exists r entries',
    cleanGeneratedFiles dryRun readdir_refused refused (Some entries)
      = (r, Some entries') /\
    (forall n, In n entries -> endsWith ".ts" n = false -> In n entries') /\
    (forall n, In n entries' -> In n entries) /\
    (dryRun = true -> entries' = entries) /\
    (dryRun = true -> readdir_refused = false ->
     c_success r = true /\
     c_files r = Some (List.filter (endsWith ".ts") entries)).
Proof.
  unfold cleanGeneratedFiles.
  destruct readdir_refused; [eexists _, _; split; [reflexivity|]; now auto|].
  destruct dryRun; [eexists _, _; split; [reflexivity|]; now auto|].
  destruct (remove_each refused (List.filter (endsWith ".ts") entries) entries)
    as [[[]|e] entries'] eqn:Hr;
    destruct (remove_each_keeps _ _ _ _ _ Hr) as [Hsub Hkeep];
    (eexists _, entries'; split; [reflexivity|];
     split; [|split; [exact Hsub | split; discriminate]]);
    intros n Hn Hts; apply Hkeep; [exact Hn| |exact Hn|];
    intros Hin; apply filter_In in Hin as [_ Hin]; congruence.
Qed.

(** X18.  A real run on a readable directory succeeds exactly when no
    removal of a '.ts' entry is refused; it then leaves exactly the entries
    that do not end in '.ts', in their order, and reports the number of
    '.ts' entries as [deletedCount]. *)
Theorem cleanGeneratedFiles_removes_ts (refused : string -> bool)
  (entries : list string) :
  exists r entries',
    cleanGeneratedFiles false false refused (Some entries) = (r, Some entries') /\
    (c_success r = true <->
     forall n, In n entries -> endsWith ".ts" n = true -> refused n = false) /\
    (c_success r = true ->
     entries' = List.filter (fun n => negb (endsWith ".ts" n)) entries /\
     deletedCount r = Some (length (List.filter (endsWith ".ts") entries))).
Proof.
  unfold cleanGeneratedFiles.
  set (tsFiles := List.filter (endsWith ".ts") entries).
  destruct (forallb (fun n => negb (refused n)) tsFiles) eqn:Hall.
  - assert (Hok : forall n, In n tsFiles -> refused n = false).
    { intros n Hn. rewrite forallb_forall in Hall.
      apply Hall in Hn. now apply negb_true_iff in Hn. }
    rewrite (remove_each_resolved refused tsFiles entries Hok).
    eexists _, _. split; [reflexivity|]. cbn. split.
    + split; [|reflexivity]. intros _ n Hn Hts. apply Hok.
      apply filter_In. now split.
    + intros _. split; [|reflexivity]. now apply filter_not_ts.
  - assert (Hbad : exists n, In n tsFiles /\ refused n = true).
    { apply not_true_iff_false in Hall.
      destruct (existsb refused tsFiles) eqn:Hex.
      - apply existsb_exists in Hex. exact Hex.
      - exfalso. apply Hall. apply forallb_forall. intros n Hn.
        apply negb_true_iff. destruct (refused n) eqn:Hr; [|reflexivity].
        assert (existsb refused tsFiles = true)
          by (apply existsb_exists; now exists n).
        congruence. }
    destruct Hbad as (n & Hn & Hr).
    destruct (remove_each_rejected refused tsFiles entries n Hn Hr)
      as (e & entries' & ->).
    eexists _, _. split; [reflexivity|]. cbn. split; [|discriminate].
    split; [discriminate|]. intros Hok.
    apply filter_In in Hn as [Hin Hts]. rewrite (Hok n Hin Hts) in Hr. discriminate.
Qed.

End CleanerMore.

(** ** Watcher, continued *)

Section WatcherMore.

Variable delay : nat.

Lemma from_changes_more (seen more : list event) (s : state) :
  from_changes delay seen s -> from_changes delay (seen ++ more) s.
Proof.
  intros [Hruns Htimer]. split.
  - intros t p H. destruct (Hruns t p H) as (t0 & Hin & ->).
    exists t0. split; [apply in_or_app; now left | reflexivity].
  - intros due p H. destruct (Htimer due p H) as (t0 & Hin & ->).
    exists t0. split; [apply in_or_app; now left | reflexivity].
Qed.

Lemma fire_from_changes (seen : list event) (s : state) :
  from_changes delay seen s -> from_changes delay seen (fire s).
Proof.
  destruct s as [[[due p]|] reg n rs]; [|exact (fun H => H)].
  intros [Hruns Htimer]. unfold fire, regenerate_callback. cbn in *.
  destruct reg; cbn; (split; [|discriminate]); [exact Hruns|].
  intros t q Hin. apply in_app_or in Hin as [Hin|[[= <- <-]|[]]];
    [now apply Hruns | now apply Htimer].
Qed.

Lemma advance_from_changes (seen : list event) (t : nat) (s : state) :
  from_changes delay seen s -> from_changes delay seen (advance t s).
Proof.
  intros H. unfold advance. destruct (timeoutId s) as [[due p]|]; [|exact H].
  destruct (due <=? t)%nat; [now apply fire_from_changes | exact H].
Qed.

Lemma step_from_changes (seen : list event) (s : state) (e : event) :
  from_changes delay seen s -> from_changes delay (seen ++ [e]) (step delay s e).
Proof.
  intros H. destruct e as [t p|t]; cbn [step].
  - apply (advance_from_changes seen t) in H.
    apply (from_changes_more seen [Change t p]) in H. destruct H as [Hruns _].
    split; [exact Hruns|]. cbn. intros due q [= <- <-].
    exists t. split; [apply in_or_app; right; now left | reflexivity].
  - apply (advance_from_changes seen t) in H.
    apply (from_changes_more seen [Settle t]) in H. destruct H as [Hruns Htimer].
    unfold settle. destruct (inflight (advance t s)); now split.
Qed.

Lemma exec_from_changes (trace : list event) :
  forall seen s, from_changes delay seen s ->
                 from_changes delay (seen ++ trace) (exec delay trace s).
Proof.
  induction trace as [|e trace IH]; intros seen s H.
  - now rewrite app_nil_r.
  - cbn [exec fold_left].
    replace (seen ++ e :: trace) with ((seen ++ [e]) ++ trace)
      by now rewrite <- app_assoc.
    apply IH, step_from_changes, H.
Qed.

(** X19.  The watcher never regenerates on its own or early: every
    [generateTypes] call it makes is triggered by a change event it
    received, carries that event's path, and starts exactly [delay]
    milliseconds after that event. *)
Theorem runs_come_from_changes (trace : list event) (t : nat) (changedPath : string) :
  In (t, changedPath) (runs (finish (exec delay trace initial))) ->
  exists t0, In (Change t0 changedPath) trace /\ t = t0 + delay.
Proof.
  intros Hin.
  assert (H0 : from_changes delay [] initial) by (split; [intros ? ? []|discriminate]).
  apply (exec_from_changes trace) in H0. apply fire_from_changes in H0.
  destruct H0 as [Hruns _]. exact (Hruns t changedPath Hin).
Qed.

End WatcherMore.

Lemma runs_come_from_changes_witness :
  exists t0, In (Change t0 "User.js") [Change 0 "User.js"] /\ 300 = t0 + 300.
Proof.
  exact (runs_come_from_changes 300 [Change 0 "User.js"] 300 "User.js"
           (or_introl eq_refl)).
Defined.

Section WatcherControlMore.

Lemma control_keeps_watching (h : handles) (c : command) :
  isWatching h = true -> isWatching (control h c) = true.
Proof.
  destruct c; cbn; try reflexivity.
  unfold isWatching, stop. destruct (watcher h); [reflexivity|].
  now intros.
Qed.

Lemma controls_keep_watching (cmds : list command) :
  forall h, isWatching h = true -> isWatching (fold_left control cmds h) = true.
Proof.
  induction cmds as [|c cmds IH]; intros h H; [exact H|].
  apply IH, control_keeps_watching, H.
Qed.

(** X20.  [isWatching] reports whether [start] was ever called, not
    whether a watcher is open: once a [start] or [restart] has happened it
    stays [true] through every later [stop]. *)
Theorem isWatching_after_start (cmds : list command) (c : command) :
  In c cmds -> c <> Stop ->
  isWatching (fold_left control cmds no_handles) = true.
Proof.
  intros Hin Hc. apply in_split in Hin as (before & after & ->).
  rewrite fold_left_app. cbn [fold_left].
  apply controls_keep_watching. destruct c; [reflexivity | contradiction | reflexivity].
Qed.

Lemma isWatching_after_start_witness :
  isWatching (fold_left control [Start; Stop] no_handles) = true /\
  opened (fold_left control [Start; Stop] no_handles) = [].
Proof.
  split; [|reflexivity].
  exact (isWatching_after_start [Start; Stop] Start (or_introl eq_refl)
           ltac:(discriminate)).
Defined.

End WatcherControlMore.

Section BackupRoundTrip.

(** X21.  Backup and restore are inverse on the destination: when neither
    copy is refused, [createBackup] of an existing file followed, after any
    change to the files that leaves the backup alone, by [restoreBackup]
    puts the content the destination had at backup time back in place; the
    backup is gone afterwards unless its removal is refused. *)
Theorem backup_restore_round_trip (path prior : string) (ft : faults)
  (fs later : FS) :
  fs !! path = Some prior ->
  ft CallCopyToBackup = false ->
  ft CallCopyFromBackup = false ->
  later !! (path +:+ ".backup") = Some prior ->
  exists fs1 s fs3,
    createBackup path ft fs = (Resolved (Some (path +:+ ".backup")), fs1) /\
    fs1 !! (path +:+ ".backup") = Some prior /\
    fs1 !! path = Some prior /\
    restoreBackup (path +:+ ".backup") path ft later = (s, fs3) /\
    fs3 !! path = Some prior /\
    (ft CallRemoveRestored = false ->
     s = Resolved tt /\ fs3 !! (path +:+ ".backup") = None).
Proof.
  intros Hp H1 H2 Hb.
  assert (Hbp : path +:+ ".backup" <> path) by (apply append_ne_self; discriminate).
  assert (Hpb : path <> path +:+ ".backup") by congruence.
  io_unfold. cbv beta. rewrite Hp. cbn. rewrite H1, Hp, Hb. cbn. rewrite H2, Hb.
  destruct (ft CallRemoveRestored); cbn;
    (eexists _, _, _; split; [reflexivity|];
     split; [now rewrite lookup_insert_eq|];
     split; [now rewrite lookup_insert_ne|];
     split; [reflexivity|]).
  - split; [now rewrite lookup_insert_eq | discriminate].
  - split; [now rewrite lookup_delete_ne, lookup_insert_eq|].
    intros _. split; [reflexivity | now rewrite lookup_delete_eq].
Qed.

Lemma backup_restore_round_trip_witness :
  let fs : FS := {["types/User.ts" := "old"]} in
  let later : FS := {["types/User.ts" := "broken"; "types/User.ts.backup" := "old"]} in
  exists fs1 s fs3,
    createBackup "types/User.ts" no_faults fs
      = (Resolved (Some "types/User.ts.backup"), fs1) /\
    fs1 !! "types/User.ts.backup" = Some "old" /\
    fs1 !! "types/User.ts" = Some "old" /\
    restoreBackup "types/User.ts.backup" "types/User.ts" no_faults later = (s, fs3) /\
    fs3 !! "types/User.ts" = Some "old" /\
    (false = false -> s = Resolved tt /\ fs3 !! "types/User.ts.backup" = None).
Proof.
  exact (backup_restore_round_trip "types/User.ts" "old" no_faults
           {["types/User.ts" := "old"]}
           {["types/User.ts" := "broken"; "types/User.ts.backup" := "old"]}
           eq_refl eq_refl eq_refl eq_refl).
Defined.

End BackupRoundTrip.
